(** * Phoenix TTS (main.py): a shallow embedding and its properties

    The development follows the layout of [main.py]:
    - [PyStr]      Python [str] values as code-point lists, [str.strip],
                   the character classes [\w] and [\s], [re.sub];
    - [PyExc]      exceptions and results of calls that may raise;
    - [Sanitizer]  the two lines of [TTSApp.handle_input] that clean the text;
    - [Blend]      the arithmetic of [TTSThread.run];
    - [Playback]   [AudioThread]: queue, worker loop, [stop], [add_to_queue];
    - [Config]     [TTSApp.load_config] and the part of [init_ui] that reads it;
    - [App]        [TTSApp]: [handle_input], [play_audio], [TTSThread.run],
                   [play_audio_output], and the interleavings of its threads;
    - [Demo]       a small model and schedules for the examples;
    - [TextFile]   text files read line by line;
    - [Startup]    [load_voices] and [load_log];
    - [Window]     [save_config], [update_blend_label], [toggle_pin] and the
                   user's actions on the widgets;
    - [Shutdown]   the first statement of [closeEvent];
    - [Session]    the log entries a schedule calls for.
    The properties follow in [SanitizerFacts], [PlaybackFacts], [ConfigFacts]
    and [AppFacts], and in [PlaybackMore], [SanitizerMore], [StartupFacts],
    [AppMore] and [WindowFacts]. *)

From Stdlib Require Import ZArith NArith List Bool Ascii String Lia.
From Stdlib Require Import Floats.PrimFloat Uint63.
From Stdlib Require Import DecimalString.
From stdpp Require Import base option list strings gmap.
Import ListNotations.

Local Open Scope N_scope.

(* ===================================================================== *)
(** ** Python strings *)
(* ===================================================================== *)

Module PyStr.

(** A Python [str] is a sequence of Unicode code points. *)
Definition pystr := list N.

(** A literal of the development, read as the code points of its characters
    (only used for ASCII text). *)
Definition py (s : string) : pystr :=
  map N_of_ascii (list_ascii_of_string s).

(** [Py_UNICODE_ISSPACE]: what [str.strip()] removes and what [\s] matches in a
    [str] pattern: U+0009..U+000D, U+001C..U+0020, U+0085, U+00A0, U+1680,
    U+2000..U+200A, U+2028, U+2029, U+202F, U+205F, U+3000. *)
Definition isspace (c : N) : bool :=
  ((9 <=? c) && (c <=? 13)) || ((28 <=? c) && (c <=? 32))
  || (c =? 133) || (c =? 160) || (c =? 5760)
  || ((8192 <=? c) && (c <=? 8202))
  || (c =? 8232) || (c =? 8233) || (c =? 8239) || (c =? 8287) || (c =? 12288).

(** The ASCII part of [str.isalnum]: digits and letters. *)
Definition ascii_isalnum (c : N) : bool :=
  ((48 <=? c) && (c <=? 57)) || ((65 <=? c) && (c <=? 90))
  || ((97 <=? c) && (c <=? 122)).

Section Unicode.

(** Python's Unicode character database decides which code points above
    U+007F are alphanumeric; it is a table of the interpreter, taken here as
    a parameter. *)
Variable unicode_isalnum : N -> bool.

(** [\w] in a [str] pattern: alphanumeric, or the underscore. *)
Definition isword (c : N) : bool :=
  (if c <? 128 then ascii_isalnum c else unicode_isalnum c) || (c =? 95).

(** The items of a bracketed character class. *)
Inductive class_item : Type :=
| ClsWord                (* \w *)
| ClsSpace               (* \s *)
| ClsChar (c : N).       (* a literal character *)

Definition item_matches (it : class_item) (c : N) : bool :=
  match it with
  | ClsWord => isword c
  | ClsSpace => isspace c
  | ClsChar d => c =? d
  end.

(** [[...]] when [negated] is [false], [[^...]] when it is [true]. *)
Definition class_matches (negated : bool) (items : list class_item) (c : N) : bool :=
  xorb negated (existsb (fun it => item_matches it c) items).

End Unicode.

(** [re.sub(pattern, repl, s)] for a pattern that is a single character
    class: every character the class matches is replaced by [repl], the
    others are copied. *)
Fixpoint re_sub (cls : N -> bool) (repl : pystr) (s : pystr) : pystr :=
  match s with
  | [] => []
  | c :: s' => if cls c then repl ++ re_sub cls repl s' else c :: re_sub cls repl s'
  end.

(** [str.lstrip()], [str.rstrip()], [str.strip()] without argument. *)
Fixpoint lstrip (s : pystr) : pystr :=
  match s with
  | [] => []
  | c :: s' => if isspace c then lstrip s' else s
  end.

Definition rstrip (s : pystr) : pystr := rev (lstrip (rev s)).

Definition strip (s : pystr) : pystr := rstrip (lstrip s).

(** Truth value of a [str]: non-empty. *)
Definition truthy (s : pystr) : bool :=
  match s with [] => false | _ :: _ => true end.

(** The two conditions a stripped string satisfies. *)
Definition starts_clean (s : pystr) : Prop :=
  match s with [] => True | c :: _ => isspace c = false end.

Definition ends_clean (s : pystr) : Prop := starts_clean (rev s).

End PyStr.

(* ===================================================================== *)
(** ** Python exceptions *)
(* ===================================================================== *)

Module PyExc.
Import PyStr.

(** The classes the program can meet. [OtherException] stands for any other
    subclass of [Exception], [NotAnException] for a [BaseException] that is
    not an [Exception] ([SystemExit], [KeyboardInterrupt]). *)
Inductive exc_class : Type :=
| AttributeError
| KeyError
| TypeError
| OverflowError
| OtherException
| NotAnException.

Record exception : Type := mkExc {
  exc_type : exc_class;
  exc_str : pystr;                 (* str(e) *)
}.

(** Does [except Exception] catch it? *)
Definition is_Exception (e : exception) : bool :=
  match exc_type e with
  | NotAnException => false
  | _ => true
  end.

(** A call either returns a value or raises. *)
Inductive result (A : Type) : Type :=
| Ok (a : A)
| Raise (e : exception).
Arguments Ok {A} a.
Arguments Raise {A} e.

End PyExc.

(* ===================================================================== *)
(** ** The sanitizer of [handle_input] *)
(* ===================================================================== *)

Module Sanitizer.
Import PyStr.

(** The items of the bracketed class in the pattern of line 183: [\w], [\s]
    and six literal marks: full stop, comma, exclamation mark, question mark,
    double quote and apostrophe (code points 46 44 33 63 34 39). *)
Definition kept_items : list class_item :=
  [ClsWord; ClsSpace; ClsChar 46; ClsChar 44; ClsChar 33; ClsChar 63;
   ClsChar 34; ClsChar 39].

Section WithUnicode.
Variable unicode_isalnum : N -> bool.

(** The pattern of line 183, a negated class. *)
Definition removed (c : N) : bool := class_matches unicode_isalnum true kept_items c.

(** The same class, not negated: the characters the spec says are retained. *)
Definition kept (c : N) : bool := class_matches unicode_isalnum false kept_items c.

(** Lines 182-183: [text = self.text_input.text().strip()], then
    [text = re.sub(PATTERN, '', text)] with the negated class above. *)
Definition sanitize (input : pystr) : pystr :=
  let text := strip input in
  let text := re_sub removed [] text in
  text.

End WithUnicode.
End Sanitizer.

(* ===================================================================== *)
(** ** The blend of [TTSThread.run] *)
(* ===================================================================== *)

Module Blend.

(** A Python [float] is an IEEE binary64 number. *)
Definition pyfloat := PrimFloat.float.

(** [float(z)] for an [int] of magnitude below 2^63 (exact below 2^53). *)
Definition float_of_int (z : Z) : pyfloat :=
  if (z <? 0)%Z
  then PrimFloat.opp (PrimFloat.of_uint63 (Uint63.of_Z (- z)))
  else PrimFloat.of_uint63 (Uint63.of_Z z).

(** [a / b] on two [int]s: true division. For operands that are exact as
    floats Python divides the two floats, which is one correctly rounded
    binary64 division. *)
Definition int_truediv (a b : Z) : pyfloat :=
  PrimFloat.div (float_of_int a) (float_of_int b).

Section Arrays.

(** The voice styles are numpy arrays whose element type and shape come from
    the voice bank; the array type and numpy's two operators used on line 46
    are parameters: [a * x] for an array and a Python float, and [a + b]. *)
Context {ndarray : Type}.
Variable nd_scale : ndarray -> pyfloat -> ndarray.
Variable nd_add : ndarray -> ndarray -> ndarray.

(** Lines 45-46:
      blend = self.blend_value / 100
      blended_voice = (self.voice1 * blend) + (self.voice2 * (1 - blend)) *)
Definition blended_voice (voice1 voice2 : ndarray) (blend_value : Z) : ndarray :=
  let blend := int_truediv blend_value 100 in
  nd_add (nd_scale voice1 blend) (nd_scale voice2 (PrimFloat.sub 1 blend)).

(** The interpolation law in the spec's words: [v1*(b/100) + v2*(1-b/100)],
    for a ratio [r] standing for [b/100]. *)
Definition lerp_spec (v1 v2 : ndarray) (r : pyfloat) : ndarray :=
  nd_add (nd_scale v1 r) (nd_scale v2 (PrimFloat.sub 1 r)).

End Arrays.
End Blend.

(* ===================================================================== *)
(** ** [AudioThread]: the playback queue and its worker *)
(* ===================================================================== *)

Module Playback.

Section Audio.

(** What travels through the queue: the tuple [(samples, sample_rate)]. *)
Context {buffer : Type}.

(** [sd.play] is a call into the sounddevice library: [sd_play_raises b]
    tells whether the device refuses [b] (a PortAudio error). *)
Variable sd_play_raises : buffer -> bool.

(** Calls the audio device has seen, oldest first. *)
Inductive dev_event : Type :=
| DevPlay (b : buffer)     (* sd.play(samples, sample_rate) was called *)
| DevWait.                 (* sd.wait() returned: playback is over *)

(** Where the worker is within [run]. *)
Inductive position : Type :=
| AtWhile                  (* about to test [self.running] (line 59) *)
| InGet                    (* inside [audio_queue.get(timeout=1)] (line 61) *)
| InWait (b : buffer)      (* [sd.play] returned, inside [sd.wait()] (line 63) *)
| Returned                 (* the loop ended, [run] returned *)
| Died (b : buffer).       (* an exception other than [queue.Empty] left [run] *)

Record AudioThread : Type := mkAudio {
  audio_queue : list buffer;       (* items of the [queue.Queue], next one first *)
  unfinished_tasks : nat;          (* the queue's count for [task_done] *)
  running : bool;
  at_line : position;
  device : list dev_event;
}.

(** [AudioThread()] followed by [start()] (lines 53-56, 88-89). *)
Definition started : AudioThread :=
  {| audio_queue := []; unfinished_tasks := 0; running := true;
     at_line := AtWhile; device := [] |}.

(** Lines 73-74: [self.audio_queue.put((samples, sample_rate))]; the queue is
    unbounded, so [put] never blocks. *)
Definition add_to_queue (b : buffer) (a : AudioThread) : AudioThread :=
  {| audio_queue := audio_queue a ++ [b];
     unfinished_tasks := S (unfinished_tasks a);
     running := running a; at_line := at_line a; device := device a |}.

(** [Queue.get(timeout=t)]: the oldest item when there is one; on an empty
    queue [queue.Empty] once the timeout has run out, and with no timeout the
    call stays blocked. *)
Inductive get_result : Type :=
| Got (b : buffer) (rest : list buffer)
| Empty
| Blocked.

Definition queue_get (timeout : option N) (q : list buffer) : get_result :=
  match q with
  | b :: rest => Got b rest
  | [] => match timeout with Some _ => Empty | None => Blocked end
  end.

(** One step of the worker inside [run] (lines 58-66), for a [get] with the
    given timeout; [None] when the worker cannot move. The steps are the
    points where another thread can act in between: the loop test, the [get],
    and the return of [sd.wait]. *)
Definition worker_step_with (timeout : option N) (a : AudioThread) : option AudioThread :=
  match at_line a with
  | AtWhile =>
      Some {| audio_queue := audio_queue a; unfinished_tasks := unfinished_tasks a;
              running := running a;
              at_line := if running a then InGet else Returned;
              device := device a |}
  | InGet =>
      match queue_get timeout (audio_queue a) with
      | Got b rest =>
          Some {| audio_queue := rest; unfinished_tasks := unfinished_tasks a;
                  running := running a;
                  at_line := if sd_play_raises b then Died b else InWait b;
                  device := device a ++ [DevPlay b] |}
      | Empty =>                      (* except queue.Empty: continue *)
          Some {| audio_queue := audio_queue a; unfinished_tasks := unfinished_tasks a;
                  running := running a; at_line := AtWhile; device := device a |}
      | Blocked => None
      end
  | InWait b =>                       (* sd.wait() returns, then task_done() *)
      Some {| audio_queue := audio_queue a;
              unfinished_tasks := pred (unfinished_tasks a);
              running := running a; at_line := AtWhile;
              device := device a ++ [DevWait] |}
  | Returned | Died _ => None
  end.

(** The worker as written: [get(timeout=1)]. *)
Definition worker_step (a : AudioThread) : option AudioThread :=
  worker_step_with (Some 1) a.

(** Has the worker thread ended? ([QThread.isFinished]) *)
Definition finished (a : AudioThread) : bool :=
  match at_line a with Returned | Died _ => true | _ => false end.

(** Line 69, the first statement of [stop]. *)
Definition clear_running (a : AudioThread) : AudioThread :=
  {| audio_queue := audio_queue a; unfinished_tasks := unfinished_tasks a;
     running := false; at_line := at_line a; device := device a |}.

(** [QThread.wait()]: the caller sleeps until the worker has ended; the worker
    is the only thread that moves meanwhile. [None]: not ended within [fuel]
    worker steps, or the worker is stuck. *)
Fixpoint wait (fuel : nat) (a : AudioThread) : option AudioThread :=
  if finished a then Some a
  else match fuel with
       | O => None
       | S fuel' =>
           match worker_step a with
           | Some a' => wait fuel' a'
           | None => None
           end
       end.

(** Lines 68-71: [self.running = False; self.quit(); self.wait()]. [quit]
    asks the thread's event loop to exit; [run] is overridden and starts no
    event loop, so it changes nothing here. *)
Definition stop (fuel : nat) (a : AudioThread) : option AudioThread :=
  let a := clear_running a in
  wait fuel a.

(** What the threads that share an [AudioThread] can do to it, one at a time. *)
Inductive event : Type :=
| EvAdd (b : buffer)       (* some thread calls [add_to_queue] *)
| EvWorker                 (* the worker takes its next step *)
| EvStopFlag.              (* some thread runs line 69 of [stop] *)

Definition step (a : AudioThread) (e : event) : AudioThread :=
  match e with
  | EvAdd b => add_to_queue b a
  | EvWorker => match worker_step a with Some a' => a' | None => a end
  | EvStopFlag => clear_running a
  end.

Definition run_events (evs : list event) (a : AudioThread) : AudioThread :=
  fold_left step evs a.

(** The buffers enqueued by a schedule, in order. *)
Fixpoint enqueued (evs : list event) : list buffer :=
  match evs with
  | [] => []
  | EvAdd b :: evs' => b :: enqueued evs'
  | _ :: evs' => enqueued evs'
  end.

(** The buffers of the [sd.play] calls in a device trace, in order. *)
Fixpoint played (tr : list dev_event) : list buffer :=
  match tr with
  | [] => []
  | DevPlay b :: tr' => b :: played tr'
  | DevWait :: tr' => played tr'
  end.

(** A device trace in which every [sd.play] is followed by the return of
    [sd.wait] before the next [sd.play]; [open_play] tells whether the last
    call is still being played. *)
Fixpoint serial (open_play : bool) (tr : list dev_event) : bool :=
  match tr with
  | [] => negb open_play
  | DevPlay _ :: DevWait :: tr' => serial open_play tr'
  | [DevPlay _] => open_play
  | _ => false
  end.

Definition no_stop (evs : list event) : bool :=
  forallb (fun e => match e with EvStopFlag => false | _ => true end) evs.

(** The buffer the worker has taken from the queue and not finished with. *)
Definition in_flight (p : position) : list buffer :=
  match p with
  | InWait b | Died b => [b]
  | _ => []
  end.

(** Is a play call still open at this position? *)
Definition playing (p : position) : bool :=
  match p with
  | InWait _ | Died _ => true
  | _ => false
  end.

(** The device trace of buffers played to the end, one after the other. *)
Definition paired (done : list buffer) : list dev_event :=
  flat_map (fun b => [DevPlay b; DevWait]) done.

(** The worker has nothing to play and is not playing. *)
Definition idle (a : AudioThread) : Prop :=
  audio_queue a = [] /\ (at_line a = AtWhile \/ at_line a = InGet).

(** How the state of an [AudioThread] relates to the buffers [hist] it was
    given so far. *)
Definition consistent (hist : list buffer) (a : AudioThread) : Prop :=
  exists done : list buffer,
    device a = paired done ++ map DevPlay (in_flight (at_line a))
    /\ hist = done ++ in_flight (at_line a) ++ audio_queue a
    /\ unfinished_tasks a = length (in_flight (at_line a) ++ audio_queue a).

(** [n] steps of the worker in a row. *)
Definition workers (n : nat) : list event := repeat EvWorker n.

(** [a'] is [a] with its queue played out. *)
Definition drained_from (a a' : AudioThread) : Prop :=
  audio_queue a' = []
  /\ (at_line a' = AtWhile \/ at_line a' = InGet)
  /\ played (device a') = played (device a) ++ audio_queue a
  /\ running a' = true.

(** The number of worker steps that are enough from each position, for a
    queue of [k] buffers. *)
Definition enough (p : position) (k m : nat) : Prop :=
  match p with
  | AtWhile => (3 * k <= m)%nat
  | InGet => (3 * k - 1 <= m)%nat
  | InWait _ => (3 * k + 1 <= m)%nat
  | Returned | Died _ => False
  end.

(** The worker is in its loop, the flag is set, and the device accepts all
    that is queued. *)
Definition healthy (a : AudioThread) : Prop :=
  running a = true
  /\ (at_line a = AtWhile \/ at_line a = InGet \/ exists b, at_line a = InWait b)
  /\ Forall (fun b => sd_play_raises b = false) (audio_queue a).

End Audio.

Arguments dev_event : clear implicits.
Arguments position : clear implicits.
Arguments AudioThread : clear implicits.
Arguments get_result : clear implicits.
Arguments event : clear implicits.

End Playback.

(* ===================================================================== *)
(** ** Preferences: [load_config] and the widgets [init_ui] fills from it *)
(* ===================================================================== *)

Module Config.
Import PyStr PyExc.

(** A value found in the dictionary [json.load] returns, as far as [init_ui]
    looks at it: a string, an integer (JSON [true]/[false] are the Python
    ints 1 and 0), [None] (JSON [null]), or anything else. *)
Inductive pyvalue : Type :=
| VStr (s : pystr)
| VInt (z : Z)
| VNone
| VOther.

(** What [json.load] returns: a [dict] for a JSON object, else another value. *)
Inductive json_value : Type :=
| JDict (d : gmap pystr pyvalue)
| JOther.

(** [config.json] when the program starts. *)
Inductive config_file : Type :=
| Missing                          (* open raises FileNotFoundError *)
| Malformed                        (* json.load raises json.JSONDecodeError *)
| Unreadable (e : exception)       (* open, read or json.load raises another error *)
| Holds (v : json_value).          (* the file parses to [v] *)

(** Lines 224-229. Only the two named exceptions are caught. *)
Definition load_config (f : config_file) : result json_value :=
  match f with
  | Missing => Ok (JDict ∅)
  | Malformed => Ok (JDict ∅)
  | Unreadable e => Raise e
  | Holds v => Ok v
  end.

(** [config.get(key, default)]; the config of a JSON text that is not an
    object has no [get]. *)
Definition config_get (config : json_value) (key : pystr) (default : pyvalue)
  : result pyvalue :=
  match config with
  | JDict d => Ok (match d !! key with Some v => v | None => default end)
  | JOther => Raise (mkExc AttributeError (py "object has no attribute 'get'"))
  end.

(** *** [QComboBox] (not editable) *)

Record QComboBox : Type := mkCombo {
  items : list pystr;
  currentIndex : option nat;       (* [None] is Qt's index -1 *)
}.

Definition new_combo : QComboBox := mkCombo [] None.

(** [addItems]: the first item put into an empty box becomes the current one. *)
Definition addItems (l : list pystr) (c : QComboBox) : QComboBox :=
  mkCombo (items c ++ l)
          (match currentIndex c, items c ++ l with
           | None, _ :: _ => Some 0%nat
           | i, _ => i
           end).

Definition pystr_eqb (s t : pystr) : bool := bool_decide (s = t).

(** [findText]: the index of the first item equal to the text. *)
Fixpoint findText_from (i : nat) (text : pystr) (l : list pystr) : option nat :=
  match l with
  | [] => None
  | x :: l' => if pystr_eqb x text then Some i else findText_from (S i) text l'
  end.

Definition findText (text : pystr) (c : QComboBox) : option nat :=
  findText_from 0 text (items c).

(** [setCurrentText]: selects the item [findText] finds; no change when there
    is none. *)
Definition setCurrentText (text : pystr) (c : QComboBox) : QComboBox :=
  match findText text c with
  | Some i => mkCombo (items c) (Some i)
  | None => c
  end.

(** [currentText]: the current item, the empty string when there is none. *)
Definition currentText (c : QComboBox) : pystr :=
  match currentIndex c with
  | Some i => match items c !! i with Some s => s | None => [] end
  | None => []
  end.

(** *** [QSlider] *)

Record QSlider : Type := mkSlider {
  minimum : Z;
  maximum : Z;
  value : Z;
}.

(** A new slider ranges over 0..99 and stands at 0. *)
Definition new_slider : QSlider := mkSlider 0 99 0.

Definition bound (lo v hi : Z) : Z := Z.max lo (Z.min hi v).

(** [setRange], which [setMinimum] and [setMaximum] call, keeps the value
    inside the new range. *)
Definition setRange (lo hi : Z) (s : QSlider) : QSlider :=
  let hi := Z.max lo hi in
  mkSlider lo hi (bound lo (value s) hi).

Definition setMinimum (lo : Z) (s : QSlider) : QSlider :=
  setRange lo (Z.max (maximum s) lo) s.

Definition setMaximum (hi : Z) (s : QSlider) : QSlider :=
  setRange (Z.min (minimum s) hi) hi s.

Definition setValue (v : Z) (s : QSlider) : QSlider :=
  mkSlider (minimum s) (maximum s) (bound (minimum s) v (maximum s)).

(** *** The widgets that hold the preferences *)

Record widgets : Type := mkWidgets {
  voice1_combo : QComboBox;
  voice2_combo : QComboBox;
  blend_slider : QSlider;
}.

(** The argument of [setCurrentText] is a Qt string: PyQt takes a [str], and
    [None] as the null string, which is the empty text; another value is a
    [TypeError]. *)
Definition as_str (v : pyvalue) : result pystr :=
  match v with
  | VStr s => Ok s
  | VNone => Ok []
  | _ => Raise (mkExc TypeError (py "argument has unexpected type"))
  end.

(** The range of a C [int], the type of the argument of [setValue]. *)
Definition int_min : Z := -2147483648.
Definition int_max : Z := 2147483647.

(** The argument of [setValue] is a C [int]: PyQt takes a Python [int]
    within the range of that type and raises [OverflowError] for one outside
    it; another value is a [TypeError]. *)
Definition as_int (v : pyvalue) : result Z :=
  match v with
  | VInt z =>
      if ((int_min <=? z) && (z <=? int_max))%Z then Ok z
      else Raise (mkExc OverflowError (py "argument 1 overflowed"))
  | _ => Raise (mkExc TypeError (py "argument has unexpected type"))
  end.

Definition bind {A B : Type} (r : result A) (k : A -> result B) : result B :=
  match r with
  | Ok a => k a
  | Raise e => Raise e
  end.

Notation "'do' x <- r ; k" := (bind r (fun x => k))
  (at level 10, x name, r at level 100, k at level 200).

(** The default of line 138: [self.voices[0] if self.voices else ""]. *)
Definition default_voice1 (voices : list pystr) : pystr :=
  match voices with
  | v :: _ => v
  | [] => []
  end.

(** The default of line 139: [self.voices[1] if len(self.voices) > 1 else ""]. *)
Definition default_voice2 (voices : list pystr) : pystr :=
  if (1 <? length voices)%nat
  then match voices !! 1%nat with Some v => v | None => [] end
  else [].

(** The lines of [init_ui] that build the three widgets (131-146). *)
Definition init_ui (voices : list pystr) (config : json_value) : result widgets :=
  let voice1_combo := new_combo in
  let voice2_combo := new_combo in
  let voice1_combo := addItems voices voice1_combo in
  let voice2_combo := addItems voices voice2_combo in
  do v1 <- config_get config (py "voice1") (VStr (default_voice1 voices)) ;
  do t1 <- as_str v1 ;
  let voice1_combo := setCurrentText t1 voice1_combo in
  do v2 <- config_get config (py "voice2") (VStr (default_voice2 voices)) ;
  do t2 <- as_str v2 ;
  let voice2_combo := setCurrentText t2 voice2_combo in
  let blend_slider := new_slider in
  let blend_slider := setMinimum 0 blend_slider in
  let blend_slider := setMaximum 100 blend_slider in
  do b <- config_get config (py "blend") (VInt 50) ;
  do z <- as_int b ;
  let blend_slider := setValue z blend_slider in
  Ok (mkWidgets voice1_combo voice2_combo blend_slider).

(** Lines 81-85 of [__init__]: the config is loaded, then the widgets built. *)
Definition startup_widgets (voices : list pystr) (f : config_file) : result widgets :=
  do config <- load_config f ;
  init_ui voices config.

(** The preferences the program works with: what [save_config] would write
    (lines 232-236). *)
Record preferences : Type := mkPrefs {
  voice1 : pystr;
  voice2 : pystr;
  blend : Z;
}.

Definition current_preferences (w : widgets) : preferences :=
  mkPrefs (currentText (voice1_combo w)) (currentText (voice2_combo w))
          (value (blend_slider w)).

End Config.

(* ===================================================================== *)
(** ** [TTSThread] and [TTSApp]: from the submitted text to the queue *)
(* ===================================================================== *)

Module App.
Import PyStr PyExc.

Section Pipeline.

(** The interpreter's Unicode table (see [PyStr]). *)
Variable unicode_isalnum : N -> bool.

(** numpy arrays of voice styles with their two operators (see [Blend]). *)
Context {ndarray : Type}.
Variable nd_scale : ndarray -> Blend.pyfloat -> ndarray.
Variable nd_add : ndarray -> ndarray -> ndarray.

(** The samples [Kokoro.create] returns. *)
Context {samples : Type}.

(** An audio buffer: the pair [(samples, sample_rate)]. *)
Definition buffer : Type := samples * Z.

(** The audio device (see [Playback]). *)
Variable sd_play_raises : buffer -> bool.

(** The model object of [kokoro_onnx], an external collaborator: its two
    methods, either of which may raise. *)
Record Kokoro : Type := mkKokoro {
  get_voice_style : pystr -> result ndarray;
  create : pystr -> ndarray -> Blend.pyfloat -> pystr -> result buffer;
                                   (* text, voice, speed, lang *)
}.

(** *** [TTSThread] *)

(** Lines 35-41. *)
Record TTSThread : Type := mkTTSThread {
  tts_kokoro : Kokoro;
  tts_text : pystr;
  tts_voice1 : ndarray;
  tts_voice2 : ndarray;
  tts_blend_value : Z;
}.

(** What one execution of [run] does that others can see. *)
Record run_trace : Type := mkRun {
  create_calls : list (pystr * ndarray * Blend.pyfloat * pystr);
  emitted : list buffer;           (* arguments of [audio_ready.emit] *)
  printed : list pystr;            (* lines written by [print] *)
  escaped : option exception;      (* an exception that left [run] *)
}.

(** A call of [kokoro.create]: the arguments the model object receives, and
    what the call returns or raises on them. *)
Definition call_create (k : Kokoro) (text : pystr) (voice : ndarray)
  (speed : Blend.pyfloat) (lang : pystr)
  : (pystr * ndarray * Blend.pyfloat * pystr) * result buffer :=
  ((text, voice, speed, lang), create k text voice speed lang).

(** Lines 43-50. *)
Definition TTSThread_run (t : TTSThread) : run_trace :=
  let blended_voice :=
    Blend.blended_voice nd_scale nd_add
      (tts_voice1 t) (tts_voice2 t) (tts_blend_value t) in
  let speed := 1%float in
  let lang := py "en-us" in
  let (call, r) := call_create (tts_kokoro t) (tts_text t) blended_voice speed lang in
  match r with
  | Ok b => mkRun [call] [b] [] None
  | Raise e =>
      if is_Exception e
      then mkRun [call] [] [py "Error generating TTS: " ++ exc_str e] None
      else mkRun [call] [] [] (Some e)
  end.

(** *** [TTSApp] *)

Record TTSApp : Type := mkApp {
  kokoro : option Kokoro;          (* [None] until [load_kokoro] has assigned it *)
  ui : Config.widgets;             (* the two combo boxes and the slider *)
  text_input : pystr;              (* the text of the line edit *)
  log_file : list pystr;           (* what was written to tts_log.txt, in order *)
  log_display : list pystr;        (* what was appended to the log view *)
  tts_thread : option TTSThread;   (* the attribute [self.tts_thread] *)
  synthesizing : list TTSThread;   (* started threads whose [run] is not over, oldest first *)
  audio_thread : Playback.AudioThread buffer;
  stdout : list pystr;
  ui_errors : list exception;      (* exceptions that left a slot on the UI thread *)
  worker_errors : list exception;  (* exceptions that left a [TTSThread.run] *)
}.

(** How a slot ends: it returns, or an exception leaves it; either way the
    state is as the executed statements made it. *)
Inductive outcome : Type :=
| Returns (st : TTSApp)
| Raises (e : exception) (st : TTSApp).

(** Lines 202-207; [timestamp] is the formatted time of the call. The line
    goes to the file with a newline (code point 10) and to the view without;
    the file is taken to be writable. *)
Definition log_text (timestamp text : pystr) (st : TTSApp) : TTSApp :=
  let log_entry := timestamp ++ py " " ++ text in
  mkApp (kokoro st) (ui st) (text_input st)
        (log_file st ++ [log_entry ++ [10]])
        (log_display st ++ [log_entry])
        (tts_thread st) (synthesizing st) (audio_thread st) (stdout st)
        (ui_errors st) (worker_errors st).

(** [self.kokoro.get_voice_style] on a [self.kokoro] that is still [None]. *)
Definition none_has_no_get_voice_style : exception :=
  mkExc AttributeError (py "'NoneType' object has no attribute 'get_voice_style'").

(** Lines 190-196. *)
Definition play_audio (text : pystr) (st : TTSApp) : outcome :=
  let blend_value := Config.value (Config.blend_slider (ui st)) in
  match kokoro st with
  | None => Raises none_has_no_get_voice_style st
  | Some k =>
      match get_voice_style k (strip (Config.currentText (Config.voice1_combo (ui st)))) with
      | Raise e => Raises e st
      | Ok voice1 =>
          match get_voice_style k (strip (Config.currentText (Config.voice2_combo (ui st)))) with
          | Raise e => Raises e st
          | Ok voice2 =>
              let t := mkTTSThread k text voice1 voice2 blend_value in
              Returns (mkApp (kokoro st) (ui st) (text_input st)
                             (log_file st) (log_display st)
                             (Some t) (synthesizing st ++ [t])
                             (audio_thread st) (stdout st)
                             (ui_errors st) (worker_errors st))
          end
      end
  end.

(** [self.text_input.clear()]. *)
Definition clear_input (st : TTSApp) : TTSApp :=
  mkApp (kokoro st) (ui st) [] (log_file st) (log_display st)
        (tts_thread st) (synthesizing st) (audio_thread st) (stdout st)
        (ui_errors st) (worker_errors st).

(** Lines 181-188. [setFocus] (line 186) moves the keyboard focus and changes
    nothing that is modelled. *)
Definition handle_input (timestamp : pystr) (st : TTSApp) : outcome :=
  let text := Sanitizer.sanitize unicode_isalnum (text_input st) in
  if truthy text then
    let st := clear_input st in
    let st := log_text timestamp text st in
    play_audio text st
  else Returns st.

(** Lines 198-200. *)
Definition play_audio_output (b : buffer) (st : TTSApp) : TTSApp :=
  mkApp (kokoro st) (ui st) (text_input st) (log_file st) (log_display st)
        (tts_thread st) (synthesizing st)
        (Playback.add_to_queue b (audio_thread st)) (stdout st)
        (ui_errors st) (worker_errors st).

(** *** The threads of the program, interleaved *)

Inductive event : Type :=
| Submit (timestamp typed : pystr) (* the user types a text and presses Return *)
| KokoroLoaded (k : Kokoro)        (* [load_kokoro] assigns [self.kokoro] (line 96) *)
| SynthDone (i : nat)              (* the [i]-th running [TTSThread] ends its [run] *)
| AudioWorker.                     (* the playback worker takes a step *)

Definition set_text_input (typed : pystr) (st : TTSApp) : TTSApp :=
  mkApp (kokoro st) (ui st) typed (log_file st) (log_display st)
        (tts_thread st) (synthesizing st) (audio_thread st) (stdout st)
        (ui_errors st) (worker_errors st).

Definition set_kokoro (k : Kokoro) (st : TTSApp) : TTSApp :=
  mkApp (Some k) (ui st) (text_input st) (log_file st) (log_display st)
        (tts_thread st) (synthesizing st) (audio_thread st) (stdout st)
        (ui_errors st) (worker_errors st).

(** An exception that leaves a slot is recorded; what PyQt does with it is
    not modelled, the program is followed further. *)
Definition end_slot (o : outcome) : TTSApp :=
  match o with
  | Returns st => st
  | Raises e st =>
      mkApp (kokoro st) (ui st) (text_input st) (log_file st) (log_display st)
            (tts_thread st) (synthesizing st) (audio_thread st) (stdout st)
            (ui_errors st ++ [e]) (worker_errors st)
  end.

(** The end of a [TTSThread]: its [run] is executed; the signals it emitted
    reach [play_audio_output] on the UI thread, in the order of emission. *)
Definition synth_done (i : nat) (st : TTSApp) : TTSApp :=
  match synthesizing st !! i with
  | None => st
  | Some t =>
      let r := TTSThread_run t in
      let st :=
        mkApp (kokoro st) (ui st) (text_input st) (log_file st) (log_display st)
              (tts_thread st) (delete i (synthesizing st)) (audio_thread st)
              (stdout st ++ printed r)
              (ui_errors st)
              (worker_errors st ++ match escaped r with Some e => [e] | None => [] end) in
      fold_left (fun st b => play_audio_output b st) (emitted r) st
  end.

Definition audio_worker (st : TTSApp) : TTSApp :=
  mkApp (kokoro st) (ui st) (text_input st) (log_file st) (log_display st)
        (tts_thread st) (synthesizing st)
        (Playback.step sd_play_raises (audio_thread st) Playback.EvWorker)
        (stdout st) (ui_errors st) (worker_errors st).

Definition step (st : TTSApp) (e : event) : TTSApp :=
  match e with
  | Submit timestamp typed => end_slot (handle_input timestamp (set_text_input typed st))
  | KokoroLoaded k => set_kokoro k st
  | SynthDone i => synth_done i st
  | AudioWorker => audio_worker st
  end.

Definition run_events (evs : list event) (st : TTSApp) : TTSApp :=
  fold_left step evs st.

(** The state [__init__] leaves (lines 77-89), the log view apart: the model
    is not loaded yet, nothing is typed, the playback worker has started. *)
Definition startup (w : Config.widgets) (old_log : list pystr) : TTSApp :=
  mkApp None w [] old_log [] None [] Playback.started [] [] [].

(** The threads a step has started: those it added to [synthesizing]. *)
Definition new_threads (st : TTSApp) (e : event) : list TTSThread :=
  match e with
  | Submit _ _ => drop (length (synthesizing st)) (synthesizing (step st e))
  | _ => []
  end.

(** The texts handed to [TTSThread]s by a schedule, in the order of
    submission. *)
Fixpoint dispatched (evs : list event) (st : TTSApp) : list pystr :=
  match evs with
  | [] => []
  | e :: evs' => map tts_text (new_threads st e) ++ dispatched evs' (step st e)
  end.

(** The state an outcome carries. *)
Definition state_of (o : outcome) : TTSApp :=
  match o with
  | Returns st => st
  | Raises _ st => st
  end.

(** The voice argument of a recorded [create] call. *)
Definition call_voice (c : pystr * ndarray * Blend.pyfloat * pystr) : ndarray :=
  match c with (_, voice, _, _) => voice end.

(** The buffers delivered by ending [TTSThread]s in a schedule, in the order
    in which the threads ended. *)
Fixpoint completed (evs : list event) (st : TTSApp) : list buffer :=
  match evs with
  | [] => []
  | e :: evs' =>
      match e with
      | SynthDone i =>
          match synthesizing st !! i with
          | Some t => emitted (TTSThread_run t)
          | None => []
          end
      | _ => []
      end ++ completed evs' (step st e)
  end.

(** The threads started by a schedule, in the order in which they started. *)
Fixpoint started_threads (evs : list event) (st : TTSApp) : list TTSThread :=
  match evs with
  | [] => []
  | e :: evs' => new_threads st e ++ started_threads evs' (step st e)
  end.

(** The threads whose [run] ended in a schedule, in the order in which they
    ended. *)
Fixpoint ended_threads (evs : list event) (st : TTSApp) : list TTSThread :=
  match evs with
  | [] => []
  | e :: evs' =>
      match e with
      | SynthDone i =>
          match synthesizing st !! i with
          | Some t => [t]
          | None => []
          end
      | _ => []
      end ++ ended_threads evs' (step st e)
  end.

End Pipeline.

Arguments buffer : clear implicits.
Arguments Kokoro : clear implicits.
Arguments TTSThread : clear implicits.
Arguments run_trace : clear implicits.
Arguments TTSApp : clear implicits.
Arguments outcome : clear implicits.
Arguments event : clear implicits.

End App.

(* ===================================================================== *)
(** ** A small instance, for the examples *)
(* ===================================================================== *)

Module Demo.
Import PyStr PyExc.

(** Arrays of binary64 numbers with elementwise operations. *)
Definition ndarray : Type := list Blend.pyfloat.

Definition nd_scale (a : ndarray) (x : Blend.pyfloat) : ndarray :=
  map (fun y => PrimFloat.mul y x) a.

Definition nd_add (a b : ndarray) : ndarray :=
  zip_with PrimFloat.add a b.

(** A model with two voices; the audio of a text is stood for by the text
    itself at 24000 Hz, and the text [boom] makes the model raise. *)
Definition kokoro : App.Kokoro ndarray pystr :=
  App.mkKokoro
    (fun name =>
       if Config.pystr_eqb name (py "af_sarah") then Ok [1%float; 0%float]
       else if Config.pystr_eqb name (py "am_adam") then Ok [0%float; 1%float]
       else Raise (mkExc KeyError name))
    (fun text voice speed lang =>
       if Config.pystr_eqb text (py "boom")
       then Raise (mkExc OtherException (py "inference failed"))
       else Ok (text, 24000%Z)).

(** The widgets after a start without config file. *)
Definition widgets : Config.widgets :=
  Config.mkWidgets
    (Config.mkCombo [py "af_sarah"; py "am_adam"] (Some 0%nat))
    (Config.mkCombo [py "af_sarah"; py "am_adam"] (Some 1%nat))
    (Config.mkSlider 0 100 50).

Definition started_app : App.TTSApp ndarray pystr := App.startup widgets [].

(** A device that plays everything. *)
Definition device_ok (b : App.buffer pystr) : bool := false.

Definition clock : pystr := py "[2025-01-01 12:00:00]".

(** A Unicode table without letters above U+007F; the examples are ASCII
    texts, which never consult it. *)
Definition ascii_only (c : N) : bool := false.

(** The model is loaded, two texts are submitted one after the other, the
    synthesis of the second ends before that of the first, and the playback
    worker then takes six steps. *)
Definition overlapping : list (App.event ndarray pystr) :=
  [App.KokoroLoaded kokoro;
   App.Submit clock (py "one"); App.Submit clock (py "two");
   App.SynthDone 1; App.SynthDone 0]
  ++ repeat App.AudioWorker 6.

(** The model is loaded and the text [boom] is submitted. *)
Definition failing_request : list (App.event ndarray pystr) :=
  [App.KokoroLoaded kokoro; App.Submit clock (py "boom")].

End Demo.

(* ===================================================================== *)
(** ** Text files: reading lines *)
(* ===================================================================== *)

Module TextFile.
Import PyStr PyExc.

(** A file opened with [open(name, "r", encoding="utf-8")]. *)
Inductive text_file : Type :=
| NoSuchFile                       (* open raises FileNotFoundError *)
| CannotRead (e : exception)       (* open or read raises another error *)
| Content (text : pystr).          (* the characters the file holds *)

(** Reading in text mode with the default newline handling: a carriage
    return, alone or followed by a line feed, is read as one line feed. *)
Fixpoint universal_newlines (s : pystr) : pystr :=
  match s with
  | [] => []
  | c :: s' =>
      if c =? 13
      then 10 :: match s' with
                 | [] => []
                 | d :: s'' =>
                     if d =? 10 then universal_newlines s''
                     else universal_newlines s'
                 end
      else c :: universal_newlines s'
  end.

(** The lines of a text, each with its line feed; [cur] is the line being
    read. A last line without line feed is a line too. *)
Fixpoint lines_from (cur : pystr) (s : pystr) : list pystr :=
  match s with
  | [] => match cur with [] => [] | _ :: _ => [cur] end
  | c :: s' =>
      if c =? 10 then (cur ++ [c]) :: lines_from [] s'
      else lines_from (cur ++ [c]) s'
  end.

(** [file.readlines()]. *)
Definition readlines (text : pystr) : list pystr :=
  lines_from [] (universal_newlines text).

(** A string without line feed and carriage return. *)
Definition one_line (s : pystr) : Prop :=
  Forall (fun c => c <> 10 /\ c <> 13) s.

(** A line as [file.write(entry + "\n")] writes it (where the system stores
    another line separator, that separator is read back as the line feed). *)
Definition with_newline (e : pystr) : pystr := e ++ [10].

End TextFile.

(* ===================================================================== *)
(** ** [load_voices] and [load_log] *)
(* ===================================================================== *)

Module Startup.
Import PyStr PyExc TextFile.

(** Lines 217-222:
      [line.strip() for line in file.readlines() if line.strip()]
    and the empty list when the file does not exist. *)
Definition load_voices (f : text_file) : result (list pystr) :=
  match f with
  | NoSuchFile => Ok []
  | CannotRead e => Raise e
  | Content text =>
      Ok (map strip (List.filter (fun line => truthy (strip line)) (readlines text)))
  end.

(** [lines[-n:]] for a positive [n]: the last [n] items, all of them when
    there are fewer. *)
Definition last_items {A : Type} (n : nat) (l : list A) : list A :=
  drop (length l - n) l.

(** Lines 209-215: what [load_log] puts into the log view. *)
Definition load_log (f : text_file) : result pystr :=
  match f with
  | NoSuchFile => Ok (py "No previous logs found.")
  | CannotRead e => Raise e
  | Content text =>
      let last_lines := last_items 50 (readlines text) in
      Ok (concat last_lines)
  end.

End Startup.

(* ===================================================================== *)
(** ** The window: [save_config], [update_blend_label], [toggle_pin] *)
(* ===================================================================== *)

Module Window.
Import PyStr PyExc Config.

(** [str(z)] for an [int]. *)
Definition str_int (z : Z) : pystr := py (NilZero.string_of_int (Z.to_int z)).

(** The part of [TTSApp] the preference handlers work on, with the config
    file beside it. *)
Record window : Type := mkWindow {
  widgets : Config.widgets;
  blend_value_label : pystr;       (* text of the label above the slider *)
  pinned : bool;                   (* [self.pinned] *)
  stays_on_top : bool;             (* the flag [WindowStaysOnTopHint] *)
  pin_button : pystr;              (* text of the pin button *)
  config_json : config_file;       (* config.json *)
}.

(** [f"Blend: {self.blend_slider.value()}%"] (lines 149 and 172). *)
Definition blend_text (w : Config.widgets) : pystr :=
  py "Blend: " ++ str_int (value (blend_slider w)) ++ py "%".

(** The dictionary of lines 232-236. *)
Definition config_data (w : Config.widgets) : gmap pystr pyvalue :=
  <[py "voice1" := VStr (currentText (voice1_combo w))]>
    (<[py "voice2" := VStr (currentText (voice2_combo w))]>
       (<[py "blend" := VInt (value (blend_slider w))]> ∅)).

(** Lines 231-238. The file is taken to be writable; what [json.dump] writes
    for a dictionary of strings and an integer, [json.load] reads back as the
    same dictionary. *)
Definition save_config (win : window) : window :=
  mkWindow (widgets win) (blend_value_label win) (pinned win) (stays_on_top win)
           (pin_button win) (Holds (JDict (config_data (widgets win)))).

(** Lines 171-173. *)
Definition update_blend_label (win : window) : window :=
  let win :=
    mkWindow (widgets win) (blend_text (widgets win)) (pinned win)
             (stays_on_top win) (pin_button win) (config_json win) in
  save_config win.

(** Lines 175-179; [show()] changes nothing that is modelled. *)
Definition toggle_pin (win : window) : window :=
  let pinned := negb (pinned win) in
  mkWindow (widgets win) (blend_value_label win) pinned pinned
           (if pinned then py "Unpin Window" else py "Pin Window")
           (config_json win).

(** The window after [__init__] (lines 82-85, 149, 152): the widgets are
    built from the config, the label shows the slider value, the window is
    not pinned. Nothing is written to the config file: the handlers are
    connected after the widgets have been set (lines 140-141, 150). *)
Definition open_window (voices : list pystr) (f : config_file) : result window :=
  do w <- startup_widgets voices f ;
  Ok (mkWindow w (blend_text w) false false (py "Pin Window") f).

(** What the user does with the widgets. *)
Inductive ui_event : Type :=
| PickVoice1 (i : nat)             (* chooses item [i] of the first combo box *)
| PickVoice2 (i : nat)             (* chooses item [i] of the second combo box *)
| MoveSlider (v : Z)               (* moves the slider to [v] *)
| ClickPin.                        (* clicks the pin button *)

(** Choosing an item of a combo box. *)
Definition pick (i : nat) (c : QComboBox) : QComboBox :=
  if (i <? length (items c))%nat then mkCombo (items c) (Some i) else c.

Definition set_widgets (w : Config.widgets) (win : window) : window :=
  mkWindow w (blend_value_label win) (pinned win) (stays_on_top win)
           (pin_button win) (config_json win).

(** Qt emits [currentTextChanged] and [valueChanged] when the text,
    respectively the value, is a different one; the handlers connected on
    lines 140, 141, 150 and 153 then run. *)
Definition on_event (win : window) (e : ui_event) : window :=
  let w := widgets win in
  match e with
  | PickVoice1 i =>
      let c := pick i (voice1_combo w) in
      let win' := set_widgets (mkWidgets c (voice2_combo w) (blend_slider w)) win in
      if pystr_eqb (currentText c) (currentText (voice1_combo w)) then win'
      else save_config win'
  | PickVoice2 i =>
      let c := pick i (voice2_combo w) in
      let win' := set_widgets (mkWidgets (voice1_combo w) c (blend_slider w)) win in
      if pystr_eqb (currentText c) (currentText (voice2_combo w)) then win'
      else save_config win'
  | MoveSlider v =>
      let sl := setValue v (blend_slider w) in
      let win' := set_widgets (mkWidgets (voice1_combo w) (voice2_combo w) sl) win in
      if (value sl =? value (blend_slider w))%Z then win'
      else update_blend_label win'
  | ClickPin => toggle_pin win
  end.

Definition run_ui (evs : list ui_event) (win : window) : window :=
  fold_left on_event evs win.

(** The current text of a combo box filled from the catalog is a catalog
    entry, or empty when the catalog is. *)
Definition shows_catalog_voice (voices : list pystr) (c : QComboBox) : Prop :=
  items c = voices
  /\ match voices with
     | [] => currentText c = []
     | _ :: _ => exists k, voices !! k = Some (currentText c)
     end.

(** The widgets as [init_ui] sets them up over a catalog. *)
Definition well_formed (voices : list pystr) (w : Config.widgets) : Prop :=
  shows_catalog_voice voices (voice1_combo w)
  /\ shows_catalog_voice voices (voice2_combo w)
  /\ minimum (blend_slider w) = 0%Z
  /\ maximum (blend_slider w) = 100%Z
  /\ (0 <= value (blend_slider w) <= 100)%Z.

(** A value [config.get] may find under a key without a setter raising:
    none, or one the setter takes: a string or [None] for a voice, an integer
    in the range of a C [int] for the blend. *)
Definition str_or_absent (o : option pyvalue) : Prop :=
  match o with
  | None | Some (VStr _) | Some VNone => True
  | Some _ => False
  end.

Definition int_or_absent (o : option pyvalue) : Prop :=
  match o with
  | None => True
  | Some (VInt z) => (int_min <= z <= int_max)%Z
  | Some _ => False
  end.

(** The config files the program starts with. *)
Definition usable (f : config_file) : Prop :=
  match f with
  | Missing | Malformed => True
  | Unreadable _ => False
  | Holds JOther => False
  | Holds (JDict d) =>
      str_or_absent (d !! py "voice1")
      /\ str_or_absent (d !! py "voice2")
      /\ int_or_absent (d !! py "blend")
  end.

(** The config file and the widgets of a running window: either nothing
    that is saved has changed since the start (the file is the one found at
    the start, [f], and the preferences are those of the start, [p]), or the
    file holds the current preferences. *)
Definition synced (voices : list pystr) (f : config_file) (p : preferences)
  (win : window) : Prop :=
  well_formed voices (widgets win)
  /\ ((config_json win = f /\ current_preferences (widgets win) = p)
      \/ config_json win = Holds (JDict (config_data (widgets win)))).

(** The number of clicks on the pin button in a session. *)
Fixpoint clicks (evs : list ui_event) : nat :=
  match evs with
  | [] => 0
  | ClickPin :: evs' => S (clicks evs')
  | _ :: evs' => clicks evs'
  end.

(** The state of the labels that go with a state of the widgets. *)
Definition labels_agree (win : window) : Prop :=
  stays_on_top win = pinned win
  /\ pin_button win = (if pinned win then py "Unpin Window" else py "Pin Window")
  /\ blend_value_label win = blend_text (widgets win).

End Window.

(* ===================================================================== *)
(** ** Shutdown *)
(* ===================================================================== *)

Module Shutdown.
Import PyStr PyExc App.

Section Pipeline.
Context {ndarray samples : Type}.
Variable sd_play_raises : buffer samples -> bool.

Definition set_audio_thread (a : Playback.AudioThread (buffer samples))
  (st : TTSApp ndarray samples) : TTSApp ndarray samples :=
  mkApp (kokoro st) (ui st) (text_input st) (log_file st) (log_display st)
        (tts_thread st) (synthesizing st) a (stdout st)
        (ui_errors st) (worker_errors st).

(** The first statement of [closeEvent] (line 242):
    [self.audio_thread.stop()]. [None] when the join is not over within
    [fuel] worker steps. *)
Definition stop_audio (fuel : nat) (st : TTSApp ndarray samples)
  : option (TTSApp ndarray samples) :=
  match Playback.stop sd_play_raises fuel (audio_thread st) with
  | Some a => Some (set_audio_thread a st)
  | None => None
  end.

End Pipeline.
End Shutdown.

(* ===================================================================== *)
(** ** What a session submits *)
(* ===================================================================== *)

Module Session.
Import PyStr PyExc TextFile App.

Section Pipeline.
Variable unicode_isalnum : N -> bool.
Context {ndarray samples : Type}.

(** The log entries the submissions of a schedule call for: one for every
    submission whose sanitized text is not empty, in the order of submission. *)
Fixpoint accepted (evs : list (event ndarray samples)) : list pystr :=
  match evs with
  | [] => []
  | Submit timestamp typed :: evs' =>
      let text := Sanitizer.sanitize unicode_isalnum typed in
      (if truthy text then [timestamp ++ py " " ++ text] else []) ++ accepted evs'
  | _ :: evs' => accepted evs'
  end.

(** The texts these submissions ask to be spoken: the sanitized text of every
    submission for which it is not empty, in the order of submission. *)
Fixpoint requested (evs : list (event ndarray samples)) : list pystr :=
  match evs with
  | [] => []
  | Submit timestamp typed :: evs' =>
      let text := Sanitizer.sanitize unicode_isalnum typed in
      (if truthy text then [text] else []) ++ requested evs'
  | _ :: evs' => requested evs'
  end.

(** A log entry for a text: a time stamp, a space, the text. *)
Definition entry_of (entry text : pystr) : Prop :=
  exists timestamp, entry = timestamp ++ py " " ++ text.

(** Neither the time stamp nor the typed text of a submission has a line
    break. *)
Definition one_line_event (e : event ndarray samples) : Prop :=
  match e with
  | Submit timestamp typed => one_line timestamp /\ one_line typed
  | _ => True
  end.

End Pipeline.
End Session.

(* ===================================================================== *)
(** ** More instances, for the examples *)
(* ===================================================================== *)

Module Demo2.
Import PyStr PyExc.

(** A model whose [create] is interrupted: it raises something that is not
    an [Exception]. *)
Definition interrupted : App.Kokoro Demo.ndarray pystr :=
  App.mkKokoro
    (App.get_voice_style Demo.kokoro)
    (fun text voice speed lang => Raise (mkExc NotAnException (py "interrupted"))).

(** A model that hands the voice it receives back as the samples. *)
Definition echo : App.Kokoro Demo.ndarray Demo.ndarray :=
  App.mkKokoro
    (App.get_voice_style Demo.kokoro)
    (fun text voice speed lang => Ok (voice, 24000%Z)).

Definition interrupted_request : list (App.event Demo.ndarray pystr) :=
  [App.KokoroLoaded interrupted; App.Submit Demo.clock (py "hi")].

(** The window after a start without config file, over the two demo voices. *)
Definition window0 : Window.window :=
  Window.mkWindow Demo.widgets (Window.blend_text Demo.widgets) false false
                  (py "Pin Window") Config.Missing.

(** A session: another first voice, the slider moved twice, one click. *)
Definition session : list Window.ui_event :=
  [Window.PickVoice1 1; Window.MoveSlider 70; Window.ClickPin; Window.MoveSlider 250].


(** A config whose blend lies beyond the slider's range, with a [null] first
    voice. *)
Definition steep_config : gmap pystr Config.pyvalue :=
  <[py "voice1" := Config.VNone]> (<[py "blend" := Config.VInt 250]> ∅).

(** A config whose blend does not fit a C [int]. *)
Definition huge_config : gmap pystr Config.pyvalue :=
  <[py "blend" := Config.VInt 3000000000]> ∅.

End Demo2.

(* ===================================================================== *)
(** ** Properties of the sanitizer *)
(* ===================================================================== *)

Module SanitizerFacts.
Import PyStr Sanitizer.

Section WithUnicode.
Variable db : N -> bool.

Lemma removed_kept c : removed db c = negb (kept db c).
Proof. unfold removed, kept, class_matches. now destruct (existsb _ _). Qed.

(** The retained class, spelled out. *)
Lemma kept_unfold c :
  kept db c = isword db c || isspace c
              || (c =? 46) || (c =? 44) || (c =? 33) || (c =? 63)
              || (c =? 34) || (c =? 39).
Proof.
  unfold kept, class_matches, kept_items. simpl.
  rewrite orb_false_r.
  now rewrite !orb_assoc.
Qed.

Lemma re_sub_kept_only s :
  Forall (fun c => kept db c = true) (re_sub (removed db) [] s).
Proof.
  induction s as [|c s IH]; simpl; [constructor|].
  destruct (removed db c) eqn:E; simpl; [exact IH|].
  constructor; [|exact IH].
  rewrite removed_kept in E. now destruct (kept db c).
Qed.

Lemma re_sub_fixpoint s :
  Forall (fun c => kept db c = true) s -> re_sub (removed db) [] s = s.
Proof.
  induction 1 as [|c s Hc _ IH]; simpl; [reflexivity|].
  rewrite removed_kept, Hc. simpl. now rewrite IH.
Qed.

Lemma Forall_lstrip (P : N -> Prop) s : Forall P s -> Forall P (lstrip s).
Proof.
  induction 1 as [|c s Hc Hs IH]; simpl; [constructor|].
  destruct (isspace c); [exact IH | now constructor].
Qed.

Lemma Forall_strip (P : N -> Prop) s : Forall P s -> Forall P (strip s).
Proof.
  intros H. unfold strip, rstrip.
  apply Forall_rev, Forall_lstrip, Forall_rev, Forall_lstrip, H.
Qed.

(** *** [strip] reaches a fixed point at once *)

Lemma lstrip_starts_clean s : starts_clean (lstrip s).
Proof.
  induction s as [|c s IH]; simpl; [exact I|].
  destruct (isspace c) eqn:E; [exact IH | exact E].
Qed.

Lemma lstrip_id s : starts_clean s -> lstrip s = s.
Proof. destruct s as [|c s]; simpl; [reflexivity|]. now intros ->. Qed.

Lemma lstrip_snoc s c :
  lstrip (s ++ [c]) =
  match lstrip s with
  | [] => if isspace c then [] else [c]
  | _ :: _ => lstrip s ++ [c]
  end.
Proof.
  induction s as [|d s IH]; simpl; [reflexivity|].
  destruct (isspace d); [exact IH | reflexivity].
Qed.

Lemma rstrip_cons c s :
  rstrip (c :: s) =
  match rstrip s with
  | [] => if isspace c then [] else [c]
  | _ :: _ => c :: rstrip s
  end.
Proof.
  unfold rstrip. simpl rev at 2. rewrite lstrip_snoc.
  destruct (lstrip (rev s)) as [|d t] eqn:E; simpl.
  - now destruct (isspace c).
  - rewrite rev_app_distr. simpl.
    destruct (rev t ++ [d]) eqn:E'; [|reflexivity].
    now destruct (rev t).
Qed.

Lemma rstrip_starts_clean s : starts_clean s -> starts_clean (rstrip s).
Proof.
  destruct s as [|c s]; [intros _; exact I|].
  simpl. intros Hc. rewrite rstrip_cons.
  destruct (rstrip s); [rewrite Hc|]; exact Hc.
Qed.

Lemma rstrip_ends_clean s : ends_clean (rstrip s).
Proof. unfold ends_clean, rstrip. rewrite rev_involutive. apply lstrip_starts_clean. Qed.

Lemma rstrip_id s : ends_clean s -> rstrip s = s.
Proof.
  unfold ends_clean, rstrip. intros H. rewrite lstrip_id by exact H.
  apply rev_involutive.
Qed.

Lemma strip_clean s : starts_clean (strip s) /\ ends_clean (strip s).
Proof.
  split; unfold strip.
  - apply rstrip_starts_clean, lstrip_starts_clean.
  - apply rstrip_ends_clean.
Qed.

Lemma strip_id s : starts_clean s -> ends_clean s -> strip s = s.
Proof. intros H1 H2. unfold strip. rewrite (lstrip_id s H1). now apply rstrip_id. Qed.

Lemma strip_strip s : strip (strip s) = strip s.
Proof. destruct (strip_clean s). now apply strip_id. Qed.

Lemma strip_fixed_clean s : strip s = s -> starts_clean s /\ ends_clean s.
Proof. intros <-. apply strip_clean. Qed.

(** *** The sanitizer *)

Lemma sanitize_kept s : Forall (fun c => kept db c = true) (sanitize db s).
Proof. apply re_sub_kept_only. Qed.

Lemma sanitize_twice s : sanitize db (sanitize db s) = strip (sanitize db s).
Proof.
  unfold sanitize at 1. cbv zeta.
  apply re_sub_fixpoint, Forall_strip, sanitize_kept.
Qed.

(** C6. Whatever the input, every character of the sanitized text is in the
    class of word characters, whitespace and the six marks . , ! ? double
    quote, apostrophe; and the spec's example holds: the input
    [Hello <world>! 100%] sanitizes to [Hello world! 100]. *)
Theorem sanitize_charset (input : pystr) :
  Forall (fun c => kept db c = true) (sanitize db input)
  /\ sanitize db (py "Hello <world>! 100%") = py "Hello world! 100".
Proof.
  split.
  - apply sanitize_kept.
  - vm_compute. reflexivity.
Qed.

(** C10 (amended). The removal stage is idempotent; the whole transform
    applied twice gives the whitespace-stripped result of applying it once, so
    it is idempotent exactly on the inputs whose sanitized form neither starts
    nor ends with whitespace; and from the second application on the result no
    longer changes. *)
Theorem sanitize_idempotent_up_to_strip (s : pystr) :
  re_sub (removed db) [] (re_sub (removed db) [] s) = re_sub (removed db) [] s
  /\ sanitize db (sanitize db s) = strip (sanitize db s)
  /\ (sanitize db (sanitize db s) = sanitize db s
      <-> starts_clean (sanitize db s) /\ ends_clean (sanitize db s))
  /\ sanitize db (sanitize db (sanitize db s)) = sanitize db (sanitize db s).
Proof.
  repeat split.
  - apply re_sub_fixpoint, re_sub_kept_only.
  - apply sanitize_twice.
  - rewrite sanitize_twice in H. now apply strip_fixed_clean in H.
  - rewrite sanitize_twice in H. now apply strip_fixed_clean in H.
  - intros [H1 H2]. rewrite sanitize_twice. now apply strip_id.
  - rewrite (sanitize_twice (sanitize db s)), sanitize_twice. apply strip_strip.
Qed.

End WithUnicode.

(** C10 (as stated) fails: stripping comes before the removal, so removing a
    leading [%] uncovers a space that only a second pass strips. *)
Lemma sanitize_not_idempotent :
  (forall db, sanitize db (py "% a") = py " a")
  /\ (forall db, sanitize db (sanitize db (py "% a")) = py "a")
  /\ py " a" <> py "a".
Proof.
  split; [|split].
  - intros db. vm_compute. reflexivity.
  - intros db. vm_compute. reflexivity.
  - discriminate.
Qed.

End SanitizerFacts.

(* ===================================================================== *)
(** ** Properties of the playback queue *)
(* ===================================================================== *)

Module PlaybackFacts.
Import Playback.
Local Open Scope nat_scope.

Section Audio.
Context {buffer : Type}.
Variable sd_play_raises : buffer -> bool.

Local Abbreviation step := (step sd_play_raises).
Local Abbreviation run_events := (run_events sd_play_raises).
Local Abbreviation worker_step := (worker_step sd_play_raises).
Local Abbreviation healthy := (healthy sd_play_raises).

Implicit Types (a : AudioThread buffer) (evs : list (event buffer)).

Lemma run_events_app evs1 evs2 a :
  run_events (evs1 ++ evs2) a = run_events evs2 (run_events evs1 a).
Proof. apply fold_left_app. Qed.

Lemma enqueued_app evs1 evs2 :
  enqueued (evs1 ++ evs2) = enqueued evs1 ++ enqueued evs2.
Proof.
  induction evs1 as [|e evs1 IH]; simpl; [reflexivity|].
  destruct e; simpl; now rewrite IH.
Qed.

Lemma enqueued_workers n : enqueued (repeat (@EvWorker buffer) n) = [].
Proof. induction n; simpl; auto. Qed.

Lemma played_app (t1 t2 : list (dev_event buffer)) :
  played (t1 ++ t2) = played t1 ++ played t2.
Proof.
  induction t1 as [|d t1 IH]; simpl; [reflexivity|].
  destruct d; simpl; now rewrite IH.
Qed.

Lemma played_paired (done : list buffer) : played (paired done) = done.
Proof. induction done as [|b done IH]; simpl; [reflexivity|]. now rewrite IH. Qed.

Lemma played_plays (l : list buffer) : played (map DevPlay l) = l.
Proof. induction l as [|b l IH]; simpl; [reflexivity|]. now rewrite IH. Qed.

Lemma paired_snoc (done : list buffer) b :
  paired (done ++ [b]) = paired done ++ [DevPlay b; DevWait].
Proof. unfold paired. rewrite flat_map_app. simpl. reflexivity. Qed.

Lemma serial_paired o (done : list buffer) (tl : list (dev_event buffer)) :
  serial o (paired done ++ tl) = serial o tl.
Proof. induction done as [|b done IH]; simpl; [reflexivity | exact IH]. Qed.

(** *** The invariant *)

Lemma consistent_started : consistent [] (@started buffer).
Proof. exists []. simpl. auto. Qed.

Lemma consistent_step hist a e :
  consistent hist a -> consistent (hist ++ enqueued [e]) (step a e).
Proof.
  intros (done & Hdev & Hhist & Hcnt).
  destruct e as [b| |]; simpl.
  - (* add_to_queue *)
    exists done. simpl. repeat split.
    + exact Hdev.
    + rewrite Hhist. now rewrite <- !app_assoc.
    + rewrite Hcnt. rewrite !length_app. simpl. lia.
  - (* the worker *)
    rewrite app_nil_r. unfold Playback.worker_step, worker_step_with.
    destruct (at_line a) eqn:Hat; simpl in *.
    + exists done. destruct (running a); simpl; auto.
    + destruct (audio_queue a) as [|b rest] eqn:Hq; simpl.
      * exists done. simpl. auto.
      * exists done. simpl.
        replace (in_flight (if sd_play_raises b then Died b else InWait b))
          with [b] by now destruct (sd_play_raises b).
        simpl. rewrite Hdev, app_nil_r. repeat split; auto.
    + exists (done ++ [b]). simpl. rewrite paired_snoc, app_nil_r.
      repeat split.
      * rewrite Hdev. now rewrite <- app_assoc.
      * rewrite Hhist. now rewrite <- app_assoc.
      * rewrite Hcnt. reflexivity.
    + exists done. simpl. rewrite Hat. auto.
    + exists done. simpl. rewrite Hat. auto.
  - (* the stop flag *)
    rewrite app_nil_r. exists done. simpl. auto.
Qed.

Lemma consistent_run evs : forall hist a,
  consistent hist a -> consistent (hist ++ enqueued evs) (run_events evs a).
Proof.
  induction evs as [|e evs IH]; intros hist a H.
  - simpl. now rewrite app_nil_r.
  - apply (consistent_step _ _ e) in H. apply IH in H.
    rewrite <- app_assoc, <- enqueued_app in H. exact H.
Qed.

Lemma consistent_played hist a :
  consistent hist a -> hist = played (device a) ++ audio_queue a.
Proof.
  intros (done & Hdev & Hhist & _).
  rewrite Hdev, played_app, played_paired, played_plays, Hhist.
  now rewrite app_assoc.
Qed.

Lemma consistent_serial hist a :
  consistent hist a -> serial (playing (at_line a)) (device a) = true.
Proof.
  intros (done & Hdev & _). rewrite Hdev, serial_paired.
  now destruct (at_line a).
Qed.

(** *** The worker drains the queue *)

Lemma run_workers_S n a :
  run_events (workers (S n)) a = run_events (workers n) (step a EvWorker).
Proof. reflexivity. Qed.

Lemma step_at_while a :
  at_line a = AtWhile -> running a = true ->
  step a EvWorker =
  mkAudio (audio_queue a) (unfinished_tasks a) true InGet (device a).
Proof.
  intros H1 H2. unfold Playback.step, Playback.worker_step, worker_step_with.
  now rewrite H1, H2.
Qed.

Lemma step_in_get_empty a :
  at_line a = InGet -> audio_queue a = [] ->
  step a EvWorker =
  mkAudio [] (unfinished_tasks a) (running a) AtWhile (device a).
Proof.
  intros H1 H2. unfold Playback.step, Playback.worker_step, worker_step_with.
  now rewrite H1, H2.
Qed.

Lemma step_in_get_item a b rest :
  at_line a = InGet -> audio_queue a = b :: rest -> sd_play_raises b = false ->
  step a EvWorker =
  mkAudio rest (unfinished_tasks a) (running a) (InWait b) (device a ++ [DevPlay b]).
Proof.
  intros H1 H2 H3. unfold Playback.step, Playback.worker_step, worker_step_with.
  rewrite H1, H2. simpl. now rewrite H3.
Qed.

Lemma step_in_wait a b :
  at_line a = InWait b ->
  step a EvWorker =
  mkAudio (audio_queue a) (pred (unfinished_tasks a)) (running a) AtWhile
          (device a ++ [DevWait]).
Proof.
  intros H1. unfold Playback.step, Playback.worker_step, worker_step_with.
  now rewrite H1.
Qed.

Lemma idle_stays n : forall a,
  running a = true -> idle a -> drained_from a (run_events (workers n) a).
Proof.
  induction n as [|n IH]; intros a Hr [Hq Hat].
  - simpl. unfold drained_from. rewrite Hq, app_nil_r. auto.
  - rewrite run_workers_S.
    assert (Hnext : exists a1, step a EvWorker = a1 /\ running a1 = true
                     /\ idle a1 /\ device a1 = device a).
    { destruct Hat as [Hat|Hat].
      - rewrite (step_at_while a Hat Hr). eexists; split; [reflexivity|].
        unfold idle; simpl; auto.
      - rewrite (step_in_get_empty a Hat Hq). eexists; split; [reflexivity|].
        unfold idle; simpl; auto. }
    destruct Hnext as (a1 & -> & Hr1 & Hidle1 & Hdev1).
    destruct (IH a1 Hr1 Hidle1) as (H1 & H2 & H3 & H4).
    unfold drained_from. rewrite Hq, app_nil_r.
    destruct Hidle1 as [Hq1 _]. rewrite Hq1, app_nil_r, Hdev1 in H3. auto.
Qed.

Lemma drain_queue k : forall a m,
  length (audio_queue a) = k ->
  running a = true ->
  Forall (fun b => sd_play_raises b = false) (audio_queue a) ->
  enough (at_line a) k m ->
  drained_from a (run_events (workers m) a).
Proof.
  induction k as [|k IH].
  - (* an empty queue *)
    assert (Hidle : forall a m, audio_queue a = [] -> running a = true ->
              at_line a = AtWhile \/ at_line a = InGet ->
              drained_from a (run_events (workers m) a)).
    { intros a m Hq Hr Hat. apply idle_stays; [exact Hr | split; assumption]. }
    intros a m Hlen Hr _ Hm.
    assert (Hq : audio_queue a = []) by now destruct (audio_queue a).
    destruct (at_line a) as [| |b| |b] eqn:Hat; simpl in Hm; try contradiction.
    + apply Hidle; auto.
    + apply Hidle; auto.
    + destruct m as [|m]; [lia|]. rewrite run_workers_S, (step_in_wait a b Hat).
      match goal with |- drained_from _ (run_events _ ?a1) =>
        destruct (Hidle a1 m) as (H1 & H2 & H3 & H4); simpl; auto; try lia end.
      simpl in H3. unfold drained_from. rewrite Hq, app_nil_r in *.
      rewrite played_app in H3. simpl in H3. rewrite app_nil_r in H3. auto.
  - (* a queue of k+1 buffers *)
    assert (Hget : forall a m, length (audio_queue a) = S k -> running a = true ->
              Forall (fun b => sd_play_raises b = false) (audio_queue a) ->
              at_line a = InGet -> 3 * S k - 1 <= m ->
              drained_from a (run_events (workers m) a)).
    { intros a m Hlen Hr Hok Hat Hm.
      destruct (audio_queue a) as [|b rest] eqn:Hq; [discriminate|].
      inversion Hok as [|? ? Hb Hrest]; subst.
      destruct m as [|m]; [lia|].
      rewrite run_workers_S, (step_in_get_item a b rest Hat Hq Hb).
      match goal with |- drained_from _ (run_events _ ?a1) =>
        destruct (IH a1 m) as (H1 & H2 & H3 & H4); simpl; auto; try lia end.
      simpl in H3. unfold drained_from. rewrite Hq.
      rewrite played_app in H3. simpl in H3. rewrite <- app_assoc in H3. auto. }
    assert (Hwhile : forall a m, length (audio_queue a) = S k -> running a = true ->
              Forall (fun b => sd_play_raises b = false) (audio_queue a) ->
              at_line a = AtWhile -> 3 * S k <= m ->
              drained_from a (run_events (workers m) a)).
    { intros a m Hlen Hr Hok Hat Hm.
      destruct m as [|m]; [lia|].
      rewrite run_workers_S, (step_at_while a Hat Hr).
      match goal with |- drained_from _ (run_events _ ?a1) =>
        destruct (Hget a1 m) as (H1 & H2 & H3 & H4); simpl; auto; try lia end.
      unfold drained_from. auto. }
    intros a m Hlen Hr Hok Hm.
    destruct (at_line a) as [| |b| |b] eqn:Hat; simpl in Hm; try contradiction.
    + apply Hwhile; auto.
    + apply Hget; auto.
    + destruct m as [|m]; [lia|]. rewrite run_workers_S, (step_in_wait a b Hat).
      match goal with |- drained_from _ (run_events _ ?a1) =>
        destruct (Hwhile a1 m) as (H1 & H2 & H3 & H4); simpl; auto; try lia end.
      simpl in H3. unfold drained_from.
      rewrite played_app in H3. simpl in H3. rewrite app_nil_r in H3. auto.
Qed.

(** *** Without [stop] and without device errors the worker stays in its loop *)

Lemma healthy_step a e :
  healthy a -> no_stop [e] = true ->
  Forall (fun b => sd_play_raises b = false) (enqueued [e]) ->
  healthy (step a e).
Proof.
  intros (Hr & Hat & Hq) Hns Hok. destruct e as [b| |].
  - simpl in Hok. repeat split; simpl; auto. apply Forall_app; split; auto.
  - destruct Hat as [Hat|[Hat|[b Hat]]].
    + rewrite (step_at_while a Hat Hr). repeat split; simpl; auto.
    + destruct (audio_queue a) as [|b rest] eqn:E.
      * rewrite (step_in_get_empty a Hat E). repeat split; simpl; auto.
      * inversion Hq as [|? ? Hb Hrest]; subst.
        rewrite (step_in_get_item a b rest Hat E Hb).
        repeat split; simpl; eauto.
    + rewrite (step_in_wait a b Hat). repeat split; simpl; auto.
  - discriminate.
Qed.

Lemma healthy_run evs : forall a,
  healthy a -> no_stop evs = true ->
  Forall (fun b => sd_play_raises b = false) (enqueued evs) ->
  healthy (run_events evs a).
Proof.
  induction evs as [|e evs IH]; intros a Ha Hns Hok; [exact Ha|].
  change (e :: evs) with ([e] ++ evs) in Hns, Hok.
  unfold no_stop in Hns. rewrite forallb_app in Hns.
  apply andb_true_iff in Hns as [Hns1 Hns2].
  rewrite enqueued_app in Hok. apply Forall_app in Hok as [Hok1 Hok2].
  simpl. apply IH; auto. apply healthy_step; auto.
Qed.

Lemma healthy_started : healthy started.
Proof. repeat split; simpl; auto. Qed.

(** *** After the worker has ended nothing is played *)

Lemma finished_step a e :
  finished a = true ->
  finished (step a e) = true /\ device (step a e) = device a.
Proof.
  intros Hf. destruct e as [b| |]; simpl; auto.
  unfold Playback.worker_step, worker_step_with.
  unfold finished in *. destruct (at_line a) eqn:E; try discriminate;
    rewrite E; auto.
Qed.

Lemma finished_run evs : forall a,
  finished a = true ->
  finished (run_events evs a) = true /\ device (run_events evs a) = device a.
Proof.
  induction evs as [|e evs IH]; intros a Hf; [auto|].
  destruct (finished_step a e Hf) as [Hf1 Hd1].
  destruct (IH _ Hf1) as [Hf2 Hd2]. simpl. rewrite <- Hd1. auto.
Qed.

(** Once the worker has ended, the queue only grows. *)
Lemma finished_queue_step a e :
  finished a = true -> audio_queue (step a e) = audio_queue a ++ enqueued [e].
Proof.
  intros Hf. destruct e as [b| |]; simpl.
  - reflexivity.
  - rewrite app_nil_r. unfold Playback.worker_step, worker_step_with.
    unfold finished in Hf. destruct (at_line a); try discriminate; reflexivity.
  - now rewrite app_nil_r.
Qed.

Lemma finished_queue_run evs : forall a,
  finished a = true -> audio_queue (run_events evs a) = audio_queue a ++ enqueued evs.
Proof.
  induction evs as [|e evs IH]; intros a Hf; simpl; [now rewrite app_nil_r|].
  destruct (finished_step a e Hf) as [Hf1 _].
  change (fold_left step evs (step a e)) with (run_events evs (step a e)).
  rewrite (IH _ Hf1), (finished_queue_step a e Hf).
  rewrite <- app_assoc. f_equal. now destruct e.
Qed.

(** [stop] returns from every state: the flag is read at the next loop test,
    at most three worker steps away. *)
Lemma stop_returns a : exists a', stop sd_play_raises 3 a = Some a' /\ finished a' = true.
Proof.
  unfold stop. destruct a as [q u r p d].
  destruct p as [| |b| |b]; simpl.
  - eexists; split; reflexivity.
  - unfold Playback.worker_step, worker_step_with; simpl.
    destruct q as [|b rest]; simpl.
    + eexists; split; reflexivity.
    + destruct (sd_play_raises b); simpl; eexists; split; reflexivity.
  - eexists; split; reflexivity.
  - eexists; split; reflexivity.
  - eexists; split; reflexivity.
Qed.

(** It is the timeout of [get] that lets an idle worker see the flag: with
    a [get] that has none, the worker waiting on an empty queue cannot move. *)
Lemma get_without_timeout_blocks a :
  at_line a = InGet -> audio_queue a = [] ->
  worker_step_with sd_play_raises None a = None.
Proof. intros H1 H2. unfold worker_step_with. now rewrite H1, H2. Qed.

Lemma worker_never_blocks a :
  finished a = false -> exists a', worker_step a = Some a'.
Proof.
  unfold Playback.worker_step, worker_step_with, finished.
  destruct (at_line a); try discriminate; intros _; eauto.
  destruct (audio_queue a); simpl; eauto.
Qed.

(** Buffers still queued when the worker reads the cleared flag are never
    played: [stop] drops them. *)
Lemma stop_drops_pending a :
  at_line a = AtWhile ->
  exists a', stop sd_play_raises 1 a = Some a'
    /\ audio_queue a' = audio_queue a
    /\ forall evs, played (device (run_events evs a')) = played (device a).
Proof.
  intros Hat. destruct a as [q u r p d]. simpl in Hat. subst p.
  eexists. split; [reflexivity|]. split; [reflexivity|].
  intros evs.
  match goal with |- context [run_events evs ?x] =>
    destruct (finished_run evs x eq_refl) as [_ ->] end.
  reflexivity.
Qed.

(** C1. For every schedule of [add_to_queue] calls, worker steps and [stop]
    flags from a started [AudioThread]: the buffers enqueued are the buffers
    played followed by those still queued, so what has been played is always
    a prefix of what is (and will be) enqueued; every [sd.play] is followed
    by the return of [sd.wait] before the next [sd.play]; and when [stop] is
    not called and the device raises no error, the worker, once it has run
    for [3N+1] steps or more after the [N] buffers were enqueued, has made
    exactly [N] play calls, for [b1..bN] in that order, each one waited for. *)
Theorem playback_fifo (evs later : list (event buffer)) :
  let a := run_events evs started in
  enqueued evs = played (device a) ++ audio_queue a
  /\ played (device a) `prefix_of` enqueued (evs ++ later)
  /\ serial (playing (at_line a)) (device a) = true
  /\ (no_stop evs = true ->
      Forall (fun b => sd_play_raises b = false) (enqueued evs) ->
      forall m, 3 * length (enqueued evs) + 1 <= m ->
      let a' := run_events (evs ++ workers m) started in
      played (device a') = enqueued evs
      /\ length (played (device a')) = length (enqueued evs)
      /\ serial false (device a') = true
      /\ audio_queue a' = []).
Proof.
  intros a.
  assert (Hc : consistent (enqueued evs) a).
  { apply (consistent_run evs [] started consistent_started). }
  pose proof (consistent_played _ _ Hc) as Hpl.
  split; [exact Hpl|]. split; [|split].
  - rewrite enqueued_app, Hpl, <- app_assoc. now eexists.
  - apply (consistent_serial _ _ Hc).
  - intros Hns Hok m Hm a'.
    pose proof (healthy_run evs started healthy_started Hns Hok) as (Hr & Hat & Hq).
    fold a in Hr, Hat, Hq.
    assert (Hlen : length (audio_queue a) <= length (enqueued evs)).
    { rewrite Hpl, length_app. lia. }
    assert (Hd : drained_from a a').
    { unfold a'. rewrite run_events_app. fold a.
      apply (drain_queue (length (audio_queue a))); auto.
      destruct Hat as [-> |[-> |[b ->]]]; simpl; lia. }
    destruct Hd as (Hq' & Hat' & Hpl' & _).
    rewrite <- Hpl in Hpl'.
    assert (Hc' : consistent (enqueued (evs ++ workers m)) a').
    { apply (consistent_run (evs ++ workers m) [] started consistent_started). }
    apply consistent_serial in Hc'.
    repeat split; auto.
    + now rewrite Hpl'.
    + destruct Hat' as [E|E]; rewrite E in Hc'; exact Hc'.
Qed.

(** C8. [stop] on an idle queue returns after at most two worker steps,
    because the [get] times out: the worker leaves its loop by itself
    ([Returned], the join is clean), and nothing is played meanwhile; and once
    [stop] has returned no schedule of later [add_to_queue] calls (or of
    anything else) adds a call to the device trace. *)
Theorem stop_when_idle (a : AudioThread buffer) (Hidle : idle a) :
  exists a',
    stop sd_play_raises 2 a = Some a'
    /\ at_line a' = Returned
    /\ device a' = device a
    /\ forall evs,
         device (run_events evs a') = device a'
         /\ played (device (run_events evs a')) = played (device a)
         /\ finished (run_events evs a') = true.
Proof.
  destruct Hidle as [Hq Hat]. destruct a as [q u r p d]. simpl in *. subst q.
  assert (Hfrozen : forall a' : AudioThread buffer,
             at_line a' = Returned -> device a' = d ->
             forall evs, device (run_events evs a') = device a'
               /\ played (device (run_events evs a')) = played d
               /\ finished (run_events evs a') = true).
  { intros a' Hp Hd evs.
    destruct (finished_run evs a') as [Hf Hdev]; [unfold finished; now rewrite Hp|].
    rewrite Hdev, Hd. auto. }
  destruct Hat as [-> | ->].
  - eexists. split; [reflexivity|]. split; [reflexivity|]. split; [reflexivity|].
    apply Hfrozen; reflexivity.
  - eexists. split; [reflexivity|]. split; [reflexivity|]. split; [reflexivity|].
    apply Hfrozen; reflexivity.
Qed.

End Audio.

(** A schedule with three buffers and a device without errors. *)
Lemma playback_fifo_witness :
  played (device (run_events (fun _ : nat => false)
            ([EvAdd 1; EvWorker; EvAdd 2; EvWorker; EvAdd 3] ++ repeat EvWorker 10)
            started)) = [1; 2; 3].
Proof.
  refine (proj1 (proj2 (proj2 (proj2
            (playback_fifo (fun _ : nat => false)
               [EvAdd 1; EvWorker; EvAdd 2; EvWorker; EvAdd 3] [])))
            _ _ 10 _)).
  - reflexivity.
  - repeat constructor.
  - simpl. lia.
Defined.

(** A worker waiting in [get] on an empty queue. *)
Lemma stop_when_idle_witness :
  exists a',
    stop (fun _ : nat => false) 2 (run_events (fun _ => false) [EvWorker] started) = Some a'
    /\ at_line a' = Returned
    /\ device a' = []
    /\ forall evs,
         device (run_events (fun _ => false) evs a') = device a'
         /\ played (device (run_events (fun _ => false) evs a')) = []
         /\ finished (run_events (fun _ => false) evs a') = true.
Proof.
  apply (stop_when_idle (fun _ : nat => false)
           (run_events (fun _ => false) [EvWorker] started)).
  split; [reflexivity | right; reflexivity].
Defined.

End PlaybackFacts.

(* ===================================================================== *)
(** ** Properties of the start-up preferences *)
(* ===================================================================== *)

Module ConfigFacts.
Import PyStr PyExc Config.
Local Open Scope nat_scope.

Lemma pystr_eqb_true s t : pystr_eqb s t = true <-> s = t.
Proof. unfold pystr_eqb. apply bool_decide_eq_true. Qed.

Lemma findText_from_found text l : forall i j,
  findText_from i text l = Some j ->
  exists k, j = i + k /\ l !! k = Some text.
Proof.
  induction l as [|x l IH]; intros i j H; simpl in H; [discriminate|].
  destruct (pystr_eqb x text) eqn:E.
  - apply pystr_eqb_true in E. inversion H; subst.
    exists 0. split; [lia | reflexivity].
  - destruct (IH _ _ H) as (k & -> & Hk).
    exists (S k). split; [lia | exact Hk].
Qed.

Lemma findText_from_present text l : forall i k,
  l !! k = Some text -> exists j, findText_from i text l = Some j.
Proof.
  induction l as [|x l IH]; intros i k H; [destruct k; discriminate|].
  simpl. destruct (pystr_eqb x text) eqn:E; [eauto|].
  destruct k as [|k]; simpl in H.
  - inversion H; subst. unfold pystr_eqb in E.
    rewrite bool_decide_eq_false in E. congruence.
  - eapply IH; eauto.
Qed.

(** Selecting a text that is among the items makes it the current text. *)
Lemma setCurrentText_present text c k :
  items c !! k = Some text -> currentText (setCurrentText text c) = text.
Proof.
  intros H. unfold setCurrentText, findText.
  destruct (findText_from_present text (items c) 0 k H) as [j Hj].
  rewrite Hj. apply findText_from_found in Hj as (k' & -> & Hk').
  unfold currentText. simpl. now rewrite Hk'.
Qed.

Lemma slider_after_range (v : Z) :
  (0 <= v <= 100)%Z ->
  value (setValue v (setMaximum 100 (setMinimum 0 new_slider))) = v.
Proof. intros H. unfold setValue, bound. simpl. lia. Qed.

(** C9. When [config.json] is missing or is not JSON, and the catalog has at
    least two voices, the program starts with the first catalog voice as
    voice 1, the second as voice 2 and a blend of 50. *)
Theorem defaults_without_config (voices : list pystr) (f : config_file)
  (Hfile : f = Missing \/ f = Malformed)
  (Hcatalog : 2 <= length voices) :
  exists w,
    startup_widgets voices f = Ok w
    /\ voices !! 0 = Some (voice1 (current_preferences w))
    /\ voices !! 1 = Some (voice2 (current_preferences w))
    /\ blend (current_preferences w) = 50%Z.
Proof.
  destruct voices as [|a [|b rest]]; simpl in Hcatalog; try lia.
  assert (Hload : load_config f = Ok (JDict ∅)) by (destruct Hfile; subst; reflexivity).
  unfold startup_widgets. rewrite Hload. simpl bind.
  unfold init_ui, config_get. rewrite !lookup_empty. simpl bind.
  eexists. split; [reflexivity|].
  unfold current_preferences; simpl voice1; simpl voice2; simpl blend.
  repeat split.
  - now rewrite (setCurrentText_present a _ 0).
  - now rewrite (setCurrentText_present b _ 1).
Qed.

(** A catalog of three voices and no config file. *)
Lemma defaults_without_config_witness :
  exists w,
    startup_widgets [py "af_sarah"; py "am_adam"; py "bf_emma"] Missing = Ok w
    /\ [py "af_sarah"; py "am_adam"; py "bf_emma"] !! 0 = Some (voice1 (current_preferences w))
    /\ [py "af_sarah"; py "am_adam"; py "bf_emma"] !! 1 = Some (voice2 (current_preferences w))
    /\ blend (current_preferences w) = 50%Z.
Proof.
  apply (defaults_without_config [py "af_sarah"; py "am_adam"; py "bf_emma"] Missing).
  - left; reflexivity.
  - simpl; lia.
Defined.

End ConfigFacts.

(* ===================================================================== *)
(** ** Properties of the pipeline *)
(* ===================================================================== *)

Module AppFacts.
Import PyStr PyExc App.
Local Open Scope nat_scope.

Section Pipeline.
Variable db : N -> bool.
Context {ndarray samples : Type}.
Variable nd_scale : ndarray -> Blend.pyfloat -> ndarray.
Variable nd_add : ndarray -> ndarray -> ndarray.
Variable sd_play_raises : buffer samples -> bool.

Local Abbreviation TTSThread_run := (TTSThread_run nd_scale nd_add).
Local Abbreviation handle_input := (handle_input (ndarray:=ndarray) (samples:=samples) db).
Local Abbreviation step := (step db nd_scale nd_add sd_play_raises).
Local Abbreviation run_events := (run_events db nd_scale nd_add sd_play_raises).
Local Abbreviation completed := (completed db nd_scale nd_add sd_play_raises).
Local Abbreviation new_threads := (new_threads db nd_scale nd_add sd_play_raises).
Local Abbreviation sanitize := (Sanitizer.sanitize db).

Implicit Types (st : TTSApp ndarray samples) (t : TTSThread ndarray samples).

(** *** The blend *)

Lemma blend_ratio_0 : Blend.int_truediv 0 100 = 0%float.
Proof. reflexivity. Qed.

Lemma blend_ratio_50 : Blend.int_truediv 50 100 = 0.5%float.
Proof. reflexivity. Qed.

Lemma blend_ratio_100 : Blend.int_truediv 100 100 = 1%float.
Proof. reflexivity. Qed.

(** At 70 percent the second weight, [1 - 0.7], is not the number [30 / 100]. *)
Remark blend_ratio_70 :
  PrimFloat.eqb (PrimFloat.sub 1 (Blend.int_truediv 70 100))
                (Blend.int_truediv 30 100) = false.
Proof. reflexivity. Qed.

(** What a call of [create] leads [run] to emit, print and let escape
    (lines 47-50). *)
Lemma run_follows_create t :
  (emitted (TTSThread_run t), printed (TTSThread_run t), escaped (TTSThread_run t))
  = match create (tts_kokoro t) (tts_text t)
            (Blend.blended_voice nd_scale nd_add
               (tts_voice1 t) (tts_voice2 t) (tts_blend_value t))
            1%float (py "en-us") with
    | Ok buf => ([buf], [], None)
    | Raise e =>
        if is_Exception e
        then ([], [py "Error generating TTS: " ++ exc_str e], None)
        else ([], [], Some e)
    end.
Proof.
  unfold App.TTSThread_run, App.call_create.
  destruct (create _ _ _ _ _) as [buf|e]; [reflexivity|].
  destruct (is_Exception e); reflexivity.
Qed.

Lemma run_calls_create t :
  create_calls (TTSThread_run t)
  = [(tts_text t,
      Blend.blended_voice nd_scale nd_add
        (tts_voice1 t) (tts_voice2 t) (tts_blend_value t),
      1%float, py "en-us")].
Proof.
  unfold App.TTSThread_run, App.call_create.
  destruct (create _ _ _ _ _) as [buf|e]; [reflexivity|].
  destruct (is_Exception e); reflexivity.
Qed.

(** C5. [run] applies [create] to the spec's interpolation of the two styles
    at the ratio [blend_value / 100]: what [run] emits, prints and lets
    escape is what that application of [create] returns or raises, and the
    one call [create] receives has that voice. For the blend values 0, 50
    and 100 the ratio and its complement are the exact numbers 0 and 1, 1/2
    and 1/2, 1 and 0, so [create] is applied to the two styles scaled by
    these numbers and added. *)
Theorem blend_passed_to_create t :
  let v1 := tts_voice1 t in
  let v2 := tts_voice2 t in
  let b := tts_blend_value t in
  let seen :=
    (emitted (TTSThread_run t), printed (TTSThread_run t), escaped (TTSThread_run t)) in
  let passing := fun voice : ndarray =>
    match create (tts_kokoro t) (tts_text t) voice 1%float (py "en-us") with
    | Ok buf => ([buf], [], None)
    | Raise e =>
        if is_Exception e
        then ([], [py "Error generating TTS: " ++ exc_str e], None)
        else ([], [], Some e)
    end in
  (seen = passing (Blend.lerp_spec nd_scale nd_add v1 v2 (Blend.int_truediv b 100))
   /\ map call_voice (create_calls (TTSThread_run t))
      = [Blend.lerp_spec nd_scale nd_add v1 v2 (Blend.int_truediv b 100)])
  /\ (b = 0%Z ->
        seen = passing (nd_add (nd_scale v1 0%float) (nd_scale v2 1%float))
        /\ map call_voice (create_calls (TTSThread_run t))
           = [nd_add (nd_scale v1 0%float) (nd_scale v2 1%float)])
  /\ (b = 50%Z ->
        seen = passing (nd_add (nd_scale v1 0.5%float) (nd_scale v2 0.5%float))
        /\ map call_voice (create_calls (TTSThread_run t))
           = [nd_add (nd_scale v1 0.5%float) (nd_scale v2 0.5%float)])
  /\ (b = 100%Z ->
        seen = passing (nd_add (nd_scale v1 1%float) (nd_scale v2 0%float))
        /\ map call_voice (create_calls (TTSThread_run t))
           = [nd_add (nd_scale v1 1%float) (nd_scale v2 0%float)]).
Proof.
  intros v1 v2 b seen passing.
  assert (Hseen : seen
            = passing (Blend.lerp_spec nd_scale nd_add v1 v2 (Blend.int_truediv b 100))).
  { apply run_follows_create. }
  assert (Hcall : map call_voice (create_calls (TTSThread_run t))
            = [Blend.lerp_spec nd_scale nd_add v1 v2 (Blend.int_truediv b 100)]).
  { rewrite run_calls_create. reflexivity. }
  split; [split; [exact Hseen | exact Hcall]|].
  split; [|split]; intros Hb; rewrite Hseen, Hcall, Hb; split; reflexivity.
Qed.

(** *** [handle_input] *)

Lemma handle_input_empty ts st :
  sanitize (text_input st) = [] -> handle_input ts st = Returns st.
Proof. intros H. unfold App.handle_input. now rewrite H. Qed.

(** What [play_audio] does, case by case. *)
Lemma play_audio_cases text st :
  (exists e, play_audio text st = Raises e st)
  \/ (exists k v1 v2,
        kokoro st = Some k
        /\ get_voice_style k (strip (Config.currentText (Config.voice1_combo (ui st)))) = Ok v1
        /\ get_voice_style k (strip (Config.currentText (Config.voice2_combo (ui st)))) = Ok v2
        /\ play_audio text st =
            Returns (mkApp (kokoro st) (ui st) (text_input st) (log_file st)
                       (log_display st)
                       (Some (mkTTSThread k text v1 v2 (Config.value (Config.blend_slider (ui st)))))
                       (synthesizing st ++
                          [mkTTSThread k text v1 v2 (Config.value (Config.blend_slider (ui st)))])
                       (audio_thread st) (stdout st) (ui_errors st) (worker_errors st))).
Proof.
  unfold play_audio.
  destruct (kokoro st) as [k|]; [|left; eauto].
  destruct (get_voice_style k _) as [v1|e1] eqn:E1; [|left; eauto].
  destruct (get_voice_style k (strip (Config.currentText (Config.voice2_combo _))))
    as [v2|e2] eqn:E2; [|left; eauto].
  right. exists k, v1, v2. auto.
Qed.

Lemma handle_input_audio ts st :
  audio_thread (state_of (handle_input ts st)) = audio_thread st.
Proof.
  unfold App.handle_input. destruct (truthy _); [|reflexivity].
  match goal with |- context [play_audio ?x ?s] =>
    destruct (play_audio_cases x s) as [[e ->]|(k & v1 & v2 & _ & _ & _ & ->)] end;
    reflexivity.
Qed.

Lemma end_slot_audio (o : outcome ndarray samples) :
  audio_thread (end_slot o) = audio_thread (state_of o).
Proof. now destruct o. Qed.

(** *** The queue receives the buffers in the order in which syntheses end *)

Lemma fold_play_audio_output (bs : list (buffer samples)) : forall st,
  audio_thread (fold_left (fun st b => play_audio_output b st) bs st)
  = Playback.run_events sd_play_raises (map Playback.EvAdd bs) (audio_thread st).
Proof. induction bs as [|b bs IH]; intros st; simpl; [reflexivity|]. now rewrite IH. Qed.

Lemma enqueued_adds (bs : list (buffer samples)) :
  Playback.enqueued (map Playback.EvAdd bs) = bs.
Proof. induction bs as [|b bs IH]; simpl; [reflexivity|]. now rewrite IH. Qed.

Lemma consistent_app_step hist st e :
  Playback.consistent hist (audio_thread st) ->
  Playback.consistent (hist ++ completed [e] st) (audio_thread (step st e)).
Proof.
  intros H. destruct e as [ts typed|k|i|]; simpl; rewrite ?app_nil_r.
  - now rewrite end_slot_audio, handle_input_audio.
  - exact H.
  - unfold synth_done. destruct (synthesizing st !! i) as [t|]; [|now rewrite app_nil_r].
    rewrite fold_play_audio_output. simpl.
    rewrite <- (enqueued_adds (emitted (TTSThread_run t))) at 1.
    now apply PlaybackFacts.consistent_run.
  - pose proof (PlaybackFacts.consistent_step sd_play_raises hist _ Playback.EvWorker H) as H'.
    simpl in H'. now rewrite app_nil_r in H'.
Qed.

Lemma completed_app evs1 : forall evs2 st,
  completed (evs1 ++ evs2) st = completed evs1 st ++ completed evs2 (run_events evs1 st).
Proof.
  induction evs1 as [|e evs1 IH]; intros evs2 st; [reflexivity|].
  simpl. rewrite IH. now rewrite app_assoc.
Qed.

Lemma consistent_app_run evs : forall hist st,
  Playback.consistent hist (audio_thread st) ->
  Playback.consistent (hist ++ completed evs st) (audio_thread (run_events evs st)).
Proof.
  induction evs as [|e evs IH]; intros hist st H.
  - simpl. now rewrite app_nil_r.
  - apply (consistent_app_step _ _ e) in H. apply IH in H.
    rewrite <- app_assoc in H.
    change (e :: evs) with ([e] ++ evs). rewrite completed_app. exact H.
Qed.

(** C2 (amended). Whatever the schedule of submissions, model load, ends of
    syntheses and worker steps, the buffers played, followed by those still
    queued, are the buffers delivered by the syntheses in the order in which
    the syntheses ended; what has been played is a prefix of that order. *)
Theorem playback_in_completion_order
  (evs later : list (event ndarray samples)) (w : Config.widgets) (old_log : list pystr) :
  let st0 := startup w old_log in
  let a := audio_thread (run_events evs st0) in
  completed evs st0 = Playback.played (Playback.device a) ++ Playback.audio_queue a
  /\ Playback.played (Playback.device a) `prefix_of` completed (evs ++ later) st0.
Proof.
  intros st0 a.
  assert (Hc : Playback.consistent (completed evs st0) a).
  { apply (consistent_app_run evs [] st0). apply PlaybackFacts.consistent_started. }
  apply PlaybackFacts.consistent_played in Hc.
  split; [exact Hc|].
  rewrite completed_app, Hc, <- app_assoc. now eexists.
Qed.

(** *** Logging and dispatch *)

(** C3 (amended). A text whose sanitized form is empty is neither logged nor
    dispatched. A text whose sanitized form is not empty, submitted when the
    model is loaded and both selected voices resolve, is appended to the log
    (file and view) and a [TTSThread] for it is started: both happen. A
    dispatch never happens without the log entry. *)
Theorem log_then_dispatch (ts : pystr) st :
  let text := sanitize (text_input st) in
  let entry := ts ++ py " " ++ text in
  let st' := state_of (handle_input ts st) in
  (text = [] -> handle_input ts st = Returns st)
  /\ (text <> [] ->
      forall k v1 v2,
        kokoro st = Some k ->
        get_voice_style k (strip (Config.currentText (Config.voice1_combo (ui st)))) = Ok v1 ->
        get_voice_style k (strip (Config.currentText (Config.voice2_combo (ui st)))) = Ok v2 ->
        exists st1, handle_input ts st = Returns st1
          /\ log_file st1 = log_file st ++ [entry ++ [10%N]]
          /\ log_display st1 = log_display st ++ [entry]
          /\ synthesizing st1 = synthesizing st ++
               [mkTTSThread k text v1 v2 (Config.value (Config.blend_slider (ui st)))])
  /\ (synthesizing st' <> synthesizing st ->
      log_file st' = log_file st ++ [entry ++ [10%N]]).
Proof.
  intros text entry st'.
  split; [apply handle_input_empty|]. split.
  - intros Hne k v1 v2 Hk H1 H2. unfold App.handle_input. fold text.
    destruct text as [|c text0] eqn:Et; [congruence|]. simpl truthy. cbv iota.
    unfold play_audio. simpl kokoro. simpl ui. rewrite Hk, H1, H2.
    eexists. repeat split; reflexivity.
  - intros Hdisp.
    destruct text as [|c text0] eqn:Et.
    { exfalso. apply Hdisp. unfold st'. now rewrite (handle_input_empty ts st Et). }
    unfold st', App.handle_input. fold text. rewrite Et. simpl truthy. cbv iota.
    match goal with |- context [play_audio ?x ?s] =>
      destruct (play_audio_cases x s) as [[e ->]|(k & v1 & v2 & _ & _ & _ & ->)] end;
      reflexivity.
Qed.

(** C4 (what the code does). Before [load_kokoro] has assigned the model, a
    non-empty submission makes [play_audio] raise [AttributeError] inside the
    slot, on the UI thread; no [TTSThread] is started and nothing reaches the
    queue, and the log entry has been written. *)
Theorem dispatch_before_model_loaded (ts typed : pystr) st
  (Hmodel : kokoro st = None)
  (Htext : sanitize typed <> []) :
  exists st1,
    handle_input ts (set_text_input typed st) = Raises none_has_no_get_voice_style st1
    /\ synthesizing st1 = synthesizing st
    /\ audio_thread st1 = audio_thread st
    /\ log_file st1 = log_file st ++ [ts ++ py " " ++ sanitize typed ++ [10%N]]
    /\ ui_errors (step st (Submit ts typed)) = ui_errors st ++ [none_has_no_get_voice_style].
Proof.
  assert (H : handle_input ts (set_text_input typed st) =
    Raises none_has_no_get_voice_style
      (log_text ts (sanitize typed) (clear_input (set_text_input typed st)))).
  { unfold App.handle_input. simpl text_input.
    destruct (sanitize typed) as [|c text0] eqn:Et; [congruence|]. simpl truthy. cbv iota.
    unfold play_audio. simpl kokoro. now rewrite Hmodel. }
  eexists. split; [exact H|]. simpl.
  repeat split.
  - now rewrite <- !app_assoc.
  - rewrite H. reflexivity.
Qed.

(** *** A failing synthesis *)

(** C7. When [create] raises an [Exception] in a [TTSThread], [run] catches
    it, prints one line and emits nothing: the queue is left as it was, no
    exception leaves the thread, the model and the widgets are untouched, the
    other running threads are still there, a later end of synthesis still
    delivers its buffer, and a later submission starts the same threads as it
    would have without the failure. *)
Theorem synthesis_error_is_contained st (i : nat) t (e : exception)
  (Hrunning : synthesizing st !! i = Some t)
  (Hraise : create (tts_kokoro t) (tts_text t)
              (Blend.blended_voice nd_scale nd_add (tts_voice1 t) (tts_voice2 t)
                 (tts_blend_value t))
              1%float (py "en-us") = Raise e)
  (Hexc : is_Exception e = true) :
  let st' := step st (SynthDone i) in
  emitted (TTSThread_run t) = []
  /\ escaped (TTSThread_run t) = None
  /\ printed (TTSThread_run t) = [py "Error generating TTS: " ++ exc_str e]
  /\ audio_thread st' = audio_thread st
  /\ stdout st' = stdout st ++ [py "Error generating TTS: " ++ exc_str e]
  /\ ui_errors st' = ui_errors st
  /\ worker_errors st' = worker_errors st
  /\ kokoro st' = kokoro st
  /\ ui st' = ui st
  /\ synthesizing st' = delete i (synthesizing st)
  /\ (forall j t2 b, synthesizing st' !! j = Some t2 ->
        emitted (TTSThread_run t2) = [b] ->
        Playback.audio_queue (audio_thread (step st' (SynthDone j)))
        = Playback.audio_queue (audio_thread st) ++ [b])
  /\ (forall ts typed,
        new_threads st' (Submit ts typed) = new_threads st (Submit ts typed)).
Proof.
  intros st'.
  assert (Hrun : TTSThread_run t =
            mkRun [(tts_text t,
                    Blend.blended_voice nd_scale nd_add (tts_voice1 t) (tts_voice2 t)
                      (tts_blend_value t), 1%float, py "en-us")]
                  [] [py "Error generating TTS: " ++ exc_str e] None).
  { unfold App.TTSThread_run, App.call_create. rewrite Hraise, Hexc. reflexivity. }
  assert (Hst' : st' =
            mkApp (kokoro st) (ui st) (text_input st) (log_file st) (log_display st)
              (tts_thread st) (delete i (synthesizing st)) (audio_thread st)
              (stdout st ++ [py "Error generating TTS: " ++ exc_str e])
              (ui_errors st) (worker_errors st ++ [])).
  { unfold st'. simpl. unfold synth_done. rewrite Hrunning, Hrun. reflexivity. }
  rewrite Hrun, Hst'. simpl.
  repeat split; try reflexivity.
  - apply app_nil_r.
  - intros j t2 b Hj Hb. unfold synth_done. simpl. rewrite Hj, Hb. reflexivity.
  - intros ts typed. unfold App.new_threads. simpl. unfold App.handle_input. simpl.
    destruct (truthy (sanitize typed)); simpl.
    + unfold play_audio. simpl.
      destruct (kokoro st) as [k|]; simpl; [|now rewrite !drop_all].
      destruct (get_voice_style k _) as [v1|e1]; simpl; [|now rewrite !drop_all].
      destruct (get_voice_style k _) as [v2|e2]; simpl; [|now rewrite !drop_all].
      now rewrite !drop_app_length.
    + now rewrite !drop_all.
Qed.

End Pipeline.

(** A request at 50 percent between two voices, to a model that hands the
    voice it receives back as the samples: the voice [create] is applied to
    is the half-and-half mix. *)
Lemma blend_passed_to_create_witness :
  emitted
    (App.TTSThread_run Demo.nd_scale Demo.nd_add
       (mkTTSThread Demo2.echo (py "Hi there")
          [1%float; 0%float] [0%float; 1%float] 50))
  = [([0.5%float; 0.5%float], 24000%Z)]
  /\ map call_voice
       (create_calls
          (App.TTSThread_run Demo.nd_scale Demo.nd_add
             (mkTTSThread Demo2.echo (py "Hi there")
                [1%float; 0%float] [0%float; 1%float] 50)))
     = [[0.5%float; 0.5%float]].
Proof.
  destruct (proj1 (proj2 (proj2
    (blend_passed_to_create Demo.nd_scale Demo.nd_add
       (mkTTSThread Demo2.echo (py "Hi there")
          [1%float; 0%float] [0%float; 1%float] 50))))
    eq_refl) as [Hseen Hcall].
  split.
  - exact (f_equal (fun x => fst (fst x)) Hseen).
  - exact Hcall.
Defined.

(** C2 (as stated) fails: [one] is submitted before [two], the synthesis of
    [two] ends first, and [two] is played first. *)
Lemma played_in_completion_order_not_submission_order :
  (forall db,
     dispatched db Demo.nd_scale Demo.nd_add Demo.device_ok
       Demo.overlapping Demo.started_app
     = [py "one"; py "two"])
  /\ (forall db,
       map fst (Playback.played (Playback.device (audio_thread
         (App.run_events db Demo.nd_scale Demo.nd_add Demo.device_ok
            Demo.overlapping Demo.started_app))))
       = [py "two"; py "one"]).
Proof.
  split; intros db; vm_compute; reflexivity.
Qed.

(** C3 (as stated) fails: submitted before the model is loaded, the text [hi]
    is written to the log and no synthesis is started. *)
Lemma logged_but_not_dispatched :
  (forall db, Sanitizer.sanitize db (py "hi") = py "hi")
  /\ (forall db,
       log_file (state_of (App.handle_input db Demo.clock
                   (set_text_input (py "hi") Demo.started_app)))
       = [py "[2025-01-01 12:00:00] hi" ++ [10%N]])
  /\ (forall db,
       synthesizing (state_of (App.handle_input db Demo.clock
                      (set_text_input (py "hi") Demo.started_app)))
       = []).
Proof.
  split; [|split]; intros db; vm_compute; reflexivity.
Qed.

(** With the model loaded, [Hi there] is logged and dispatched. *)
Lemma log_then_dispatch_witness :
  exists st1,
    App.handle_input Demo.ascii_only Demo.clock
      (set_text_input (py "Hi there") (set_kokoro Demo.kokoro Demo.started_app))
    = Returns st1
    /\ synthesizing st1 =
       [mkTTSThread Demo.kokoro (py "Hi there") [1%float; 0%float] [0%float; 1%float] 50].
Proof.
  destruct (proj1 (proj2
    (log_then_dispatch Demo.ascii_only Demo.clock
       (set_text_input (py "Hi there") (set_kokoro Demo.kokoro Demo.started_app))))
    ltac:(vm_compute; discriminate)
    Demo.kokoro [1%float; 0%float] [0%float; 1%float] eq_refl eq_refl eq_refl)
    as (st1 & Hret & _ & _ & Hsyn).
  exists st1. split; [exact Hret | exact Hsyn].
Defined.

(** The text [hi] submitted right after start-up. *)
Lemma dispatch_before_model_loaded_witness :
  exists st1,
    App.handle_input Demo.ascii_only Demo.clock (set_text_input (py "hi") Demo.started_app)
    = Raises none_has_no_get_voice_style st1
    /\ synthesizing st1 = []
    /\ audio_thread st1 = Playback.started
    /\ log_file st1 = [Demo.clock ++ py " " ++ Sanitizer.sanitize Demo.ascii_only (py "hi") ++ [10%N]]
    /\ ui_errors (App.step Demo.ascii_only Demo.nd_scale Demo.nd_add Demo.device_ok
                    Demo.started_app (Submit Demo.clock (py "hi")))
       = [none_has_no_get_voice_style].
Proof.
  apply (dispatch_before_model_loaded Demo.ascii_only Demo.nd_scale Demo.nd_add
           Demo.device_ok Demo.clock (py "hi") Demo.started_app).
  - reflexivity.
  - vm_compute. discriminate.
Defined.

(** The demo model raises on the text [boom]. *)
Lemma synthesis_error_is_contained_witness :
  stdout (App.step Demo.ascii_only Demo.nd_scale Demo.nd_add Demo.device_ok
            (App.run_events Demo.ascii_only Demo.nd_scale Demo.nd_add Demo.device_ok
               Demo.failing_request Demo.started_app)
            (SynthDone 0))
  = [py "Error generating TTS: inference failed"].
Proof.
  refine (proj1 (proj2 (proj2 (proj2 (proj2
    (synthesis_error_is_contained Demo.ascii_only Demo.nd_scale Demo.nd_add
       Demo.device_ok
       (App.run_events Demo.ascii_only Demo.nd_scale Demo.nd_add Demo.device_ok
          Demo.failing_request Demo.started_app)
       0
       (mkTTSThread Demo.kokoro (py "boom") [1%float; 0%float] [0%float; 1%float] 50)
       (mkExc OtherException (py "inference failed"))
       _ _ _)))))).
  - reflexivity.
  - reflexivity.
  - reflexivity.
Defined.

End AppFacts.

(* ===================================================================== *)
(** ** More on the playback queue: [stop] at any time, the task count,
       device errors *)
(* ===================================================================== *)

Module PlaybackMore.
Import Playback.
Local Open Scope nat_scope.

Section Audio.
Context {buffer : Type}.
Variable sd_play_raises : buffer -> bool.

Local Abbreviation step := (step sd_play_raises).
Local Abbreviation run_events := (run_events sd_play_raises).

Implicit Types (a : AudioThread buffer) (evs : list (event buffer)).

Lemma played_frozen a evs :
  finished a = true -> played (device (run_events evs a)) = played (device a).
Proof.
  intros Hf. now destruct (PlaybackFacts.finished_run sd_play_raises evs a Hf) as [_ ->].
Qed.

(** X1. [stop] returns from every state of the worker, within three worker
    steps. Until it returns at most one more buffer starts playing: the head
    of the queue, when the worker was already inside [get]. Whatever else is
    queued stays in the queue and is never played, by any later schedule. *)
Theorem stop_at_any_time a :
  exists a',
    stop sd_play_raises 3 a = Some a'
    /\ finished a' = true
    /\ running a' = false
    /\ ((played (device a') = played (device a) /\ audio_queue a' = audio_queue a)
        \/ (exists b, at_line a = InGet
                      /\ audio_queue a = b :: audio_queue a'
                      /\ played (device a') = played (device a) ++ [b]))
    /\ forall evs,
         played (device (run_events evs a')) = played (device a')
         /\ audio_queue a' `prefix_of` audio_queue (run_events evs a').
Proof.
  assert (Hafter : forall a' : AudioThread buffer, finished a' = true ->
            forall evs, played (device (run_events evs a')) = played (device a')
                        /\ audio_queue a' `prefix_of` audio_queue (run_events evs a')).
  { intros a' Hf evs. split; [now apply played_frozen|].
    revert a' Hf. induction evs as [|e evs IH]; intros a' Hf; [reflexivity|].
    simpl. destruct (PlaybackFacts.finished_step sd_play_raises a' e Hf) as [Hf' _].
    transitivity (audio_queue (step a' e)); [|now apply IH].
    destruct e as [b| |]; simpl.
    - now apply prefix_app_r.
    - unfold worker_step, worker_step_with. unfold finished in Hf.
      destruct (at_line a'); try discriminate; reflexivity.
    - reflexivity. }
  assert (Hplayed : forall (t1 t2 : list (dev_event buffer)) l,
            played t2 = l -> played (t1 ++ t2) = played t1 ++ l).
  { intros t1 t2 l <-. apply PlaybackFacts.played_app. }
  destruct a as [q u r p d].
  destruct p as [| |b| |b]; unfold stop; simpl.
  - eexists. split; [reflexivity|]. do 2 (split; [reflexivity|]).
    split; [left; split; reflexivity | apply Hafter; reflexivity].
  - unfold worker_step, worker_step_with; simpl.
    destruct q as [|b rest]; simpl.
    + eexists. split; [reflexivity|]. do 2 (split; [reflexivity|]).
      split; [left; split; reflexivity | apply Hafter; reflexivity].
    + destruct (sd_play_raises b); simpl.
      * eexists. split; [reflexivity|]. do 2 (split; [reflexivity|]).
        split; [|apply Hafter; reflexivity].
        right. exists b. simpl. repeat split. now apply Hplayed.
      * eexists. split; [reflexivity|]. do 2 (split; [reflexivity|]).
        split; [|apply Hafter; reflexivity].
        right. exists b. simpl. repeat split.
        rewrite <- app_assoc. now apply Hplayed.
  - eexists. split; [reflexivity|]. do 2 (split; [reflexivity|]).
    split; [|apply Hafter; reflexivity].
    left. simpl. split; [|reflexivity].
    rewrite (Hplayed d [DevWait] []); [apply app_nil_r | reflexivity].
  - eexists. split; [reflexivity|]. do 2 (split; [reflexivity|]).
    split; [left; split; reflexivity | apply Hafter; reflexivity].
  - eexists. split; [reflexivity|]. do 2 (split; [reflexivity|]).
    split; [left; split; reflexivity | apply Hafter; reflexivity].
Qed.

(** X2. In every state a started [AudioThread] can reach, the queue's count of
    unfinished tasks is the number of buffers queued plus the one being
    played: whenever the worker is about to call [task_done] the count is
    positive, so [task_done] cannot fail for having been called too often. *)
Theorem task_done_is_counted evs :
  let a := run_events evs started in
  unfinished_tasks a = length (in_flight (at_line a)) + length (audio_queue a)
  /\ (forall b, at_line a = InWait b -> 0 < unfinished_tasks a).
Proof.
  intros a.
  destruct (PlaybackFacts.consistent_run sd_play_raises evs [] started
              PlaybackFacts.consistent_started) as (done & _ & _ & Hcnt).
  fold a in Hcnt. rewrite length_app in Hcnt.
  split; [exact Hcnt|].
  intros b Hb. rewrite Hcnt, Hb. simpl. lia.
Qed.

(** X3. An error of [sd.play] is not caught in [run]: when the device refuses
    the buffer the worker takes from the queue, the worker ends, and neither
    the buffers behind it nor any enqueued later are ever played. *)
Theorem device_error_ends_playback a b rest
  (Hget : at_line a = InGet)
  (Hqueue : audio_queue a = b :: rest)
  (Herror : sd_play_raises b = true) :
  let a' := step a EvWorker in
  at_line a' = Died b
  /\ audio_queue a' = rest
  /\ finished a' = true
  /\ forall evs, played (device (run_events evs a')) = played (device a) ++ [b].
Proof.
  intros a'.
  assert (Ha' : a' = mkAudio rest (unfinished_tasks a) (running a) (Died b)
                       (device a ++ [DevPlay b])).
  { unfold a'. simpl. unfold worker_step, worker_step_with.
    rewrite Hget, Hqueue. simpl. now rewrite Herror. }
  rewrite Ha'. repeat split.
  intros evs. rewrite played_frozen by reflexivity.
  simpl. now rewrite PlaybackFacts.played_app.
Qed.

End Audio.

(** Three buffers are queued and the device refuses the second: the first
    has been played, the second is tried, the third never is. *)
Lemma device_error_ends_playback_witness :
  let refuses := fun n : nat => Nat.eqb n 2 in
  let a := run_events refuses
             [EvAdd 1; EvAdd 2; EvAdd 3; EvWorker; EvWorker; EvWorker; EvWorker]
             started in
  at_line (step refuses a EvWorker) = Died 2
  /\ audio_queue (step refuses a EvWorker) = [3]
  /\ finished (step refuses a EvWorker) = true
  /\ forall evs,
       played (device (run_events refuses evs (step refuses a EvWorker))) = [1; 2].
Proof.
  apply (device_error_ends_playback (fun n : nat => Nat.eqb n 2)
           (run_events (fun n : nat => Nat.eqb n 2)
              [EvAdd 1; EvAdd 2; EvAdd 3; EvWorker; EvWorker; EvWorker; EvWorker] started)
           2 [3]); reflexivity.
Defined.

End PlaybackMore.

(* ===================================================================== *)
(** ** More on the sanitizer *)
(* ===================================================================== *)

Module SanitizerMore.
Import PyStr Sanitizer.
Local Open Scope nat_scope.

Lemma sublist_same_length {A : Type} (l1 l2 : list A) :
  l1 `sublist_of` l2 -> length l2 <= length l1 -> l1 = l2.
Proof.
  induction 1 as [|x l1 l2 _ IH|x l1 l2 Hsub _]; simpl; intros Hlen.
  - reflexivity.
  - f_equal. apply IH. lia.
  - apply sublist_length in Hsub. lia.
Qed.

Lemma lstrip_sublist s : lstrip s `sublist_of` s.
Proof.
  induction s as [|c s IH]; simpl; [constructor|].
  destruct (isspace c); [now constructor | reflexivity].
Qed.

Lemma rstrip_sublist s : rstrip s `sublist_of` s.
Proof.
  induction s as [|c s IH]; [constructor|].
  rewrite SanitizerFacts.rstrip_cons.
  destruct (rstrip s) as [|d t].
  - destruct (isspace c); [apply sublist_nil_l|].
    constructor. apply sublist_nil_l.
  - now constructor.
Qed.

Lemma strip_sublist s : strip s `sublist_of` s.
Proof.
  unfold strip. transitivity (lstrip s); [apply rstrip_sublist | apply lstrip_sublist].
Qed.

Lemma re_sub_sublist cls s : re_sub cls [] s `sublist_of` s.
Proof.
  induction s as [|c s IH]; simpl; [constructor|].
  destruct (cls c); simpl; now constructor.
Qed.

Lemma lstrip_blank s : Forall (fun c => isspace c = true) s -> lstrip s = [].
Proof. induction 1 as [|c s Hc _ IH]; simpl; [reflexivity|]. now rewrite Hc. Qed.

Lemma strip_blank s : Forall (fun c => isspace c = true) s -> strip s = [].
Proof. intros H. unfold strip. now rewrite (lstrip_blank s H). Qed.

Lemma re_sub_all_removed cls s :
  Forall (fun c => cls c = true) s -> re_sub cls [] s = [].
Proof. induction 1 as [|c s Hc _ IH]; simpl; [reflexivity|]. now rewrite Hc. Qed.

Section WithUnicode.
Variable db : N -> bool.

Lemma sanitize_sublist (s : pystr) : sanitize db s `sublist_of` s.
Proof.
  unfold sanitize. transitivity (strip s); [apply re_sub_sublist | apply strip_sublist].
Qed.

(** X4. The sanitized text is a subsequence of what was typed: characters are
    only ever taken away, never added, replaced or reordered; in particular
    the result is not longer than the input. *)
Theorem sanitize_only_removes (s : pystr) :
  sanitize db s `sublist_of` s
  /\ length (sanitize db s) <= length s
  /\ (forall c, c ∈ sanitize db s -> c ∈ s).
Proof.
  pose proof (sanitize_sublist s) as H.
  split; [exact H|]. split; [now apply sublist_length|].
  intros c Hc. eapply sublist_subseteq; eauto.
Qed.

(** X5. The sanitizer leaves a text exactly as typed if and only if all its
    characters are in the retained class and it neither starts nor ends with
    whitespace. *)
Theorem sanitize_verbatim_iff (s : pystr) :
  sanitize db s = s
  <-> Forall (fun c => kept db c = true) s /\ starts_clean s /\ ends_clean s.
Proof.
  split.
  - intros H.
    assert (Hk : Forall (fun c => kept db c = true) s).
    { rewrite <- H. apply SanitizerFacts.sanitize_kept. }
    split; [exact Hk|].
    apply SanitizerFacts.strip_fixed_clean.
    apply sublist_same_length; [apply strip_sublist|].
    rewrite <- H at 1. unfold sanitize. apply sublist_length, re_sub_sublist.
  - intros (Hk & H1 & H2). unfold sanitize.
    rewrite (SanitizerFacts.strip_id s H1 H2).
    now apply SanitizerFacts.re_sub_fixpoint.
Qed.

(** A text that is all whitespace, or all characters outside the class,
    sanitizes to the empty string. *)
Lemma sanitize_blank (s : pystr) :
  Forall (fun c => isspace c = true) s \/ Forall (fun c => removed db c = true) s ->
  sanitize db s = [].
Proof.
  intros [H|H]; unfold sanitize.
  - now rewrite (strip_blank s H).
  - apply re_sub_all_removed. now apply SanitizerFacts.Forall_strip.
Qed.

End WithUnicode.
End SanitizerMore.

(* ===================================================================== *)
(** ** Properties of [load_voices] and [load_log] *)
(* ===================================================================== *)

Module StartupFacts.
Import PyStr PyExc TextFile Startup.
Local Open Scope nat_scope.

(** *** Reading lines *)

Lemma universal_newlines_id s :
  Forall (fun c => c <> 13%N) s -> universal_newlines s = s.
Proof.
  induction 1 as [|c s Hc _ IH]; simpl; [reflexivity|].
  destruct (N.eqb_spec c 13); [contradiction|]. now rewrite IH.
Qed.

Lemma concat_lines_from s : forall cur, concat (lines_from cur s) = cur ++ s.
Proof.
  induction s as [|c s IH]; intros cur; simpl.
  - destruct cur; simpl; now rewrite ?app_nil_r.
  - destruct (c =? 10)%N; simpl; rewrite IH; simpl; now rewrite <- ?app_assoc.
Qed.

(** Reading the lines of a text loses nothing. *)
Lemma concat_readlines text : concat (readlines text) = universal_newlines text.
Proof. unfold readlines. now rewrite concat_lines_from. Qed.

Lemma lines_from_line e rest : forall cur,
  Forall (fun c => c <> 10%N) e ->
  lines_from cur (e ++ 10%N :: rest) = (cur ++ e ++ [10%N]) :: lines_from [] rest.
Proof.
  induction e as [|c e IH]; intros cur He; simpl.
  - reflexivity.
  - inversion He as [|? ? Hc He']; subst.
    destruct (N.eqb_spec c 10); [contradiction|].
    rewrite IH by assumption. now rewrite <- app_assoc.
Qed.

Lemma lines_from_written es :
  Forall one_line es ->
  lines_from [] (concat (map with_newline es)) = map with_newline es.
Proof.
  induction 1 as [|e es He _ IH]; simpl; [reflexivity|].
  unfold with_newline at 1. rewrite <- app_assoc. simpl.
  rewrite lines_from_line.
  - simpl. now rewrite IH.
  - eapply Forall_impl; [exact He|]. now intros c [? _].
Qed.

Lemma written_no_cr es :
  Forall one_line es -> Forall (fun c => c <> 13%N) (concat (map with_newline es)).
Proof.
  induction 1 as [|e es He _ IH]; simpl; [constructor|].
  apply Forall_app. split; [|exact IH].
  unfold with_newline. apply Forall_app. split.
  - eapply Forall_impl; [exact He|]. now intros c [_ ?].
  - repeat constructor. discriminate.
Qed.

(** Lines written one after the other are read back one by one. *)
Lemma readlines_written es :
  Forall one_line es -> readlines (concat (map with_newline es)) = map with_newline es.
Proof.
  intros H. unfold readlines.
  rewrite (universal_newlines_id _ (written_no_cr es H)).
  now apply lines_from_written.
Qed.

(** *** [load_voices] *)

Lemma strip_fixed s : strip (strip s) = strip s.
Proof. apply SanitizerFacts.strip_strip. Qed.

(** X6. Whatever the voice list file holds, the catalog [load_voices] returns
    has no empty name and no name with whitespace around it (stripping a
    catalog name again, as [play_audio] does, changes nothing), and it has at
    most one name per line of the file; a file that does not exist gives the
    empty catalog. *)
Theorem load_voices_clean (f : text_file) (voices : list pystr)
  (Hload : load_voices f = Ok voices) :
  Forall (fun v => v <> [] /\ strip v = v) voices
  /\ (f = NoSuchFile -> voices = [])
  /\ (forall text, f = Content text -> length voices <= length (readlines text)).
Proof.
  destruct f as [|e|text]; simpl in Hload; inversion Hload; subst.
  - repeat split; [constructor | discriminate].
  - repeat split; try discriminate.
    + apply Forall_forall. intros v Hv.
      apply list_elem_of_In, in_map_iff in Hv as (line & <- & Hline).
      apply filter_In in Hline as [_ Ht].
      split; [|apply strip_fixed].
      intros E. rewrite E in Ht. discriminate.
    + intros text' E. inversion E; subst.
      rewrite length_map. apply filter_length_le.
Qed.

(** A file of three lines: a padded name, a blank line, a last line without
    line feed. *)
Lemma load_voices_clean_witness :
  let text := py "  af_sarah " ++ [10%N; 10%N] ++ py " am adam" in
  Forall (fun v => v <> [] /\ strip v = v) [py "af_sarah"; py "am adam"]
  /\ (Content text = NoSuchFile -> [py "af_sarah"; py "am adam"] = [])
  /\ (forall text', Content text = Content text' ->
        length [py "af_sarah"; py "am adam"] <= length (readlines text')).
Proof.
  apply (load_voices_clean
           (Content (py "  af_sarah " ++ [10%N; 10%N] ++ py " am adam"))).
  reflexivity.
Defined.

Lemma strip_with_newline v :
  v <> [] -> strip v = v -> strip (with_newline v) = v.
Proof.
  intros Hne Hv.
  destruct (SanitizerFacts.strip_fixed_clean v Hv) as [Hs He].
  unfold strip, with_newline.
  rewrite SanitizerFacts.lstrip_id.
  - unfold rstrip. rewrite rev_app_distr. simpl.
    change (rev (lstrip (rev v))) with (rstrip v).
    exact (SanitizerFacts.rstrip_id v He).
  - destruct v; [congruence | exact Hs].
Qed.

(** X7. A voice list written one name per line is read back as it was
    written, when the names are not empty, have no whitespace around them and
    contain no line break. *)
Theorem load_voices_round_trip (names : list pystr)
  (Hnames : Forall (fun v => v <> [] /\ strip v = v /\ one_line v) names) :
  load_voices (Content (concat (map with_newline names))) = Ok names.
Proof.
  simpl. f_equal.
  rewrite readlines_written.
  - induction Hnames as [|v names (Hne & Hv & _) _ IH]; [reflexivity|].
    cbn [map List.filter]. rewrite (strip_with_newline v Hne Hv).
    destruct v as [|c v]; [congruence|]. cbn [truthy map].
    rewrite (strip_with_newline (c :: v) Hne Hv). now rewrite IH.
  - eapply Forall_impl; [exact Hnames|]. now intros v (_ & _ & H).
Qed.

Lemma load_voices_round_trip_witness :
  load_voices (Content (concat (map with_newline [py "af_sarah"; py "am_adam"])))
  = Ok [py "af_sarah"; py "am_adam"].
Proof.
  apply (load_voices_round_trip [py "af_sarah"; py "am_adam"]).
  repeat constructor; try discriminate; vm_compute; intros; discriminate.
Defined.

(** *** [load_log] *)

Lemma concat_drop_suffix (l : list pystr) n : concat (drop n l) `suffix_of` concat l.
Proof.
  exists (concat (take n l)).
  rewrite <- concat_app. now rewrite take_drop.
Qed.

(** X8. The log view after start-up shows the end of the log file: a suffix of
    its text, made of its last 50 lines, and the whole text when the file has
    at most 50 lines; when there is no log file it shows a fixed notice. *)
Theorem load_log_shows_the_end (text : pystr) :
  exists shown,
    load_log (Content text) = Ok shown
    /\ shown `suffix_of` universal_newlines text
    /\ shown = concat (drop (length (readlines text) - 50) (readlines text))
    /\ (length (readlines text) <= 50 -> shown = universal_newlines text)
    /\ load_log NoSuchFile = Ok (py "No previous logs found.").
Proof.
  eexists. split; [reflexivity|]. unfold last_items. repeat split.
  - rewrite <- concat_readlines. apply concat_drop_suffix.
  - intros Hlen. replace (length (readlines text) - 50) with 0 by lia.
    simpl. apply concat_readlines.
Qed.

Lemma last_items_map {A B : Type} (f : A -> B) n (l : list A) :
  last_items n (map f l) = map f (last_items n l).
Proof. unfold last_items. now rewrite length_map, skipn_map. Qed.

Lemma load_log_written (entries : list pystr) :
  Forall one_line entries ->
  load_log (Content (concat (map with_newline entries)))
  = Ok (concat (map with_newline (last_items 50 entries))).
Proof.
  intros Hentries. simpl. rewrite (readlines_written entries Hentries).
  now rewrite last_items_map.
Qed.

(** X9. What was written to the log one entry per line is shown again at the
    next start: the view holds the last 50 entries, each on its line (all of
    them when there are at most 50), provided no entry contains a line
    break. *)
Theorem load_log_round_trip (entries : list pystr)
  (Hentries : Forall one_line entries) :
  load_log (Content (concat (map with_newline entries)))
  = Ok (concat (map with_newline (last_items 50 entries)))
  /\ (length entries <= 50 ->
      load_log (Content (concat (map with_newline entries)))
      = Ok (concat (map with_newline entries))).
Proof.
  pose proof (load_log_written entries Hentries) as H.
  split; [exact H|]. intros Hlen. rewrite H. unfold last_items.
  now replace (length entries - 50) with 0 by lia.
Qed.

Lemma load_log_round_trip_witness :
  load_log (Content (concat (map with_newline
     [py "[2025-01-01 12:00:00] Hi there"; py "[2025-01-01 12:00:05] Bye"])))
  = Ok (concat (map with_newline (last_items 50
     [py "[2025-01-01 12:00:00] Hi there"; py "[2025-01-01 12:00:05] Bye"]))).
Proof.
  refine (proj1 (load_log_round_trip
           [py "[2025-01-01 12:00:00] Hi there"; py "[2025-01-01 12:00:05] Bye"] _)).
  repeat constructor; vm_compute; intros; discriminate.
Defined.

End StartupFacts.

(* ===================================================================== *)
(** ** More on the pipeline: the log, conservation of requests, shutdown *)
(* ===================================================================== *)

Module AppMore.
Import PyStr PyExc TextFile App Session Shutdown.
Local Open Scope nat_scope.

Section Pipeline.
Variable db : N -> bool.
Context {ndarray samples : Type}.
Variable nd_scale : ndarray -> Blend.pyfloat -> ndarray.
Variable nd_add : ndarray -> ndarray -> ndarray.
Variable sd_play_raises : buffer samples -> bool.

Local Abbreviation TTSThread_run := (TTSThread_run nd_scale nd_add).
Local Abbreviation handle_input := (handle_input (ndarray:=ndarray) (samples:=samples) db).
Local Abbreviation step := (step db nd_scale nd_add sd_play_raises).
Local Abbreviation run_events := (run_events db nd_scale nd_add sd_play_raises).
Local Abbreviation completed := (completed db nd_scale nd_add sd_play_raises).
Local Abbreviation dispatched := (dispatched db nd_scale nd_add sd_play_raises).
Local Abbreviation new_threads := (new_threads db nd_scale nd_add sd_play_raises).
Local Abbreviation sanitize := (Sanitizer.sanitize db).
Local Abbreviation accepted := (accepted db (ndarray:=ndarray) (samples:=samples)).
Local Abbreviation requested := (requested db (ndarray:=ndarray) (samples:=samples)).
Local Abbreviation started_threads := (started_threads db nd_scale nd_add sd_play_raises).
Local Abbreviation ended_threads := (ended_threads db nd_scale nd_add sd_play_raises).

Implicit Types (st : TTSApp ndarray samples) (t : TTSThread ndarray samples)
  (evs : list (event ndarray samples)).

Lemma run_events_cons e evs st :
  run_events (e :: evs) st = run_events evs (step st e).
Proof. reflexivity. Qed.

(** *** What each step does to the fields *)

Lemma fold_output_fields (bs : list (buffer samples)) : forall st,
  let st' := fold_left (fun st b => play_audio_output b st) bs st in
  log_file st' = log_file st /\ log_display st' = log_display st
  /\ synthesizing st' = synthesizing st.
Proof.
  induction bs as [|b bs IH]; intros st; simpl; [auto|].
  destruct (IH (play_audio_output b st)) as (H1 & H2 & H3).
  rewrite H1, H2, H3. auto.
Qed.

(** A submission, spelled out. *)
Lemma submit_cases ts typed st :
  let st' := step st (Submit ts typed) in
  let text := sanitize typed in
  (text = [] /\ st' = set_text_input typed st)
  \/ (text <> [] /\ exists new,
        length new <= 1
        /\ Forall (fun t => tts_text t = text) new
        /\ log_file st' = log_file st ++ [with_newline (ts ++ py " " ++ text)]
        /\ log_display st' = log_display st ++ [ts ++ py " " ++ text]
        /\ synthesizing st' = synthesizing st ++ new
        /\ text_input st' = []).
Proof.
  intros st' text. unfold st'. simpl. unfold App.handle_input. simpl text_input.
  fold text. destruct text as [|c text0] eqn:Et.
  - left. split; reflexivity.
  - right. split; [discriminate|]. simpl truthy. cbv iota.
    match goal with |- context [play_audio ?x ?s] =>
      destruct (AppFacts.play_audio_cases x s)
        as [[e He]|(k & v1 & v2 & _ & _ & _ & He)] end; rewrite He; simpl.
    + exists []. split; [simpl; lia|]. split; [constructor|].
      unfold with_newline. repeat split; rewrite ?app_nil_r; reflexivity.
    + eexists [_]. split; [simpl; lia|].
      split; [|unfold with_newline; repeat split; reflexivity].
      constructor; [reflexivity | constructor].
Qed.

Lemma accepted_submit ts typed :
  accepted [Submit ts typed]
  = if truthy (sanitize typed) then [ts ++ py " " ++ sanitize typed] else [].
Proof. simpl. now rewrite app_nil_r. Qed.

Lemma submit_effect ts typed st :
  let st' := step st (Submit ts typed) in
  log_file st' = log_file st ++ map with_newline (accepted [Submit ts typed])
  /\ log_display st' = log_display st ++ accepted [Submit ts typed]
  /\ synthesizing st' = synthesizing st ++ new_threads st (Submit ts typed)
  /\ length (new_threads st (Submit ts typed)) <= length (accepted [Submit ts typed])
  /\ Forall (fun t => tts_text t = sanitize typed) (new_threads st (Submit ts typed)).
Proof.
  cbv zeta. rewrite accepted_submit.
  assert (Hnew : forall k,
            synthesizing (step st (Submit ts typed)) = synthesizing st ++ k ->
            new_threads st (Submit ts typed) = k).
  { intros k H. unfold App.new_threads. rewrite H. apply drop_app_length. }
  destruct (submit_cases ts typed st)
    as [[Ht Hst]|(Ht & new & Hlen & Hall & Hf & Hd & Hs & _)].
  - assert (Hs : synthesizing (step st (Submit ts typed)) = synthesizing st ++ []).
    { rewrite Hst. simpl. now rewrite app_nil_r. }
    rewrite (Hnew [] Hs), Ht, Hst. simpl. rewrite !app_nil_r.
    repeat split; auto.
  - rewrite (Hnew new Hs), Hf, Hd, Hs.
    destruct (sanitize typed) as [|c text0]; [congruence|]. simpl.
    repeat split; auto.
Qed.

Lemma step_log e st :
  log_file (step st e) = log_file st ++ map with_newline (accepted [e])
  /\ log_display (step st e) = log_display st ++ accepted [e].
Proof.
  destruct e as [ts typed|k|i|].
  - destruct (submit_effect ts typed st) as (H1 & H2 & _). auto.
  - simpl. now rewrite !app_nil_r.
  - simpl. rewrite !app_nil_r. unfold synth_done.
    destruct (synthesizing st !! i) as [t|]; [|auto].
    match goal with |- context [fold_left ?f ?bs ?s] =>
      destruct (fold_output_fields bs s) as (H1 & H2 & _) end.
    rewrite H1, H2. auto.
  - simpl. now rewrite !app_nil_r.
Qed.

Lemma accepted_app evs1 evs2 : accepted (evs1 ++ evs2) = accepted evs1 ++ accepted evs2.
Proof.
  induction evs1 as [|e evs1 IH]; [reflexivity|].
  destruct e; simpl; rewrite IH; now rewrite ?app_assoc.
Qed.

Lemma run_log evs : forall st,
  log_file (run_events evs st) = log_file st ++ map with_newline (accepted evs)
  /\ log_display (run_events evs st) = log_display st ++ accepted evs.
Proof.
  induction evs as [|e evs IH]; intros st.
  - simpl. now rewrite !app_nil_r.
  - rewrite run_events_cons. destruct (IH (step st e)) as [H1 H2].
    destruct (step_log e st) as [H3 H4].
    rewrite H1, H2, H3, H4.
    change (e :: evs) with ([e] ++ evs). rewrite accepted_app, map_app.
    now rewrite !app_assoc.
Qed.

(** X10. The log is a function of the submissions alone: after any schedule,
    the log file holds, after what it held before, one line for every
    submission whose sanitized text is not empty, in the order of submission,
    and the log view has gained the same entries, whether or not the model
    was loaded, a voice lookup failed or a synthesis went wrong. Nothing that
    was in the log is changed. *)
Theorem log_records_accepted_submissions evs st :
  log_file (run_events evs st) = log_file st ++ map with_newline (accepted evs)
  /\ log_display (run_events evs st) = log_display st ++ accepted evs
  /\ log_file st `prefix_of` log_file (run_events evs st).
Proof.
  destruct (run_log evs st) as [H1 H2]. repeat split; auto.
  rewrite H1. now eexists.
Qed.

(** *** The log view at the next start *)

Lemma one_line_sublist (s t : pystr) : s `sublist_of` t -> one_line t -> one_line s.
Proof.
  unfold one_line. intros Hsub Ht. apply Forall_forall. intros c Hc.
  rewrite Forall_forall in Ht. apply Ht. eapply sublist_subseteq; eauto.
Qed.

Lemma accepted_one_line evs :
  Forall (one_line_event (ndarray:=ndarray) (samples:=samples)) evs ->
  Forall one_line (accepted evs).
Proof.
  induction 1 as [|e evs He _ IH]; [constructor|].
  change (e :: evs) with ([e] ++ evs). rewrite accepted_app.
  apply Forall_app. split; [|exact IH].
  destruct e as [ts typed|k|i|]; try constructor.
  destruct He as [Hts Htyped]. rewrite accepted_submit.
  destruct (truthy (sanitize typed)); constructor; [|constructor].
  unfold one_line. apply Forall_app. split; [exact Hts|].
  apply Forall_app. split.
  - repeat constructor; discriminate.
  - apply (one_line_sublist _ typed); [apply SanitizerMore.sanitize_sublist | exact Htyped].
Qed.

(** X11. Across a restart the log view shows what the session logged: when
    the log file held one entry per line and no time stamp or typed text of
    the session contains a line break, [load_log] on the file the session
    leaves shows the last 50 of the old entries followed by the accepted
    submissions. *)
Theorem log_view_after_restart evs (w : Config.widgets) (old_entries : list pystr)
  (Hold : Forall one_line old_entries)
  (Hevs : Forall (one_line_event (ndarray:=ndarray) (samples:=samples)) evs) :
  Startup.load_log
    (Content (concat (log_file (run_events evs (startup w (map with_newline old_entries))))))
  = Ok (concat (map with_newline (Startup.last_items 50 (old_entries ++ accepted evs)))).
Proof.
  destruct (run_log evs (startup w (map with_newline old_entries))) as [H _].
  rewrite H. simpl log_file. rewrite <- map_app.
  apply StartupFacts.load_log_written.
  apply Forall_app. split; [exact Hold | now apply accepted_one_line].
Qed.

(** *** No request is played twice *)

Lemma emitted_at_most_one t : length (emitted (TTSThread_run t)) <= 1.
Proof.
  unfold App.TTSThread_run, App.call_create.
  destruct (create _ _ _ _ _) as [b|e]; [simpl; lia|].
  destruct (is_Exception e); simpl; lia.
Qed.

Lemma step_count st e :
  length (completed [e] st) + length (synthesizing (step st e))
  <= length (synthesizing st) + length (new_threads st e).
Proof.
  destruct e as [ts typed|k|i|].
  - destruct (submit_effect ts typed st) as (_ & _ & Hs & _).
    rewrite Hs, length_app. simpl. lia.
  - simpl. lia.
  - simpl. rewrite app_nil_r. unfold synth_done.
    destruct (synthesizing st !! i) as [t|] eqn:Hi; [|simpl; lia].
    match goal with |- context [fold_left ?f ?bs ?s] =>
      destruct (fold_output_fields bs s) as (_ & _ & H3) end.
    rewrite H3. simpl synthesizing.
    rewrite length_delete by eauto.
    pose proof (emitted_at_most_one t).
    apply lookup_lt_Some in Hi. lia.
  - simpl. lia.
Qed.

Lemma dispatched_le_accepted evs : forall st,
  length (dispatched evs st) <= length (accepted evs).
Proof.
  induction evs as [|e evs IH]; intros st; [simpl; lia|].
  change (e :: evs) with ([e] ++ evs). rewrite accepted_app.
  simpl dispatched. rewrite !length_app, length_map.
  specialize (IH (step st e)).
  assert (length (new_threads st e) <= length (accepted [e])); [|lia].
  destruct e as [ts typed|k|i|]; try (simpl; lia).
  now destruct (submit_effect ts typed st) as (_ & _ & _ & H & _).
Qed.

Lemma run_count evs : forall st,
  length (completed evs st) + length (synthesizing (run_events evs st))
  <= length (synthesizing st) + length (dispatched evs st).
Proof.
  induction evs as [|e evs IH]; intros st; [simpl; lia|].
  rewrite run_events_cons.
  change (e :: evs) with ([e] ++ evs) at 1.
  rewrite (AppFacts.completed_app db nd_scale nd_add sd_play_raises [e] evs st).
  simpl dispatched. rewrite !length_app, length_map.
  specialize (IH (step st e)). pose proof (step_count st e).
  change (App.run_events db nd_scale nd_add sd_play_raises [e] st) with (step st e).
  lia.
Qed.

(** *** Which threads there are *)

Lemma step_synthesizing st e :
  synthesizing (step st e)
  = match e with
    | SynthDone i =>
        match synthesizing st !! i with
        | Some _ => delete i (synthesizing st)
        | None => synthesizing st
        end
    | _ => synthesizing st ++ new_threads st e
    end.
Proof.
  destruct e as [ts typed|k|i|].
  - now destruct (submit_effect ts typed st) as (_ & _ & Hs & _).
  - simpl. now rewrite app_nil_r.
  - simpl. unfold synth_done. destruct (synthesizing st !! i) as [t|]; [|reflexivity].
    match goal with |- context [fold_left ?f ?bs ?s] =>
      destruct (fold_output_fields bs s) as (_ & _ & H3) end.
    rewrite H3. reflexivity.
  - simpl. now rewrite app_nil_r.
Qed.

Lemma threads_conserved evs : forall st,
  ended_threads evs st ++ synthesizing (run_events evs st)
  ≡ₚ synthesizing st ++ started_threads evs st.
Proof.
  induction evs as [|e evs IH]; intros st.
  - simpl. now rewrite app_nil_r.
  - rewrite run_events_cons. simpl ended_threads. simpl started_threads.
    specialize (IH (step st e)). rewrite step_synthesizing in IH.
    destruct e as [ts typed|k|i|].
    + simpl app at 1. rewrite IH. now rewrite <- app_assoc.
    + simpl app at 1. rewrite IH. simpl. now rewrite <- app_assoc.
    + destruct (synthesizing st !! i) as [t|] eqn:Hi.
      * rewrite <- app_assoc, IH. simpl. symmetry.
        exact (Permutation_app_tail _ (delete_Permutation (synthesizing st) i t Hi)).
      * simpl. exact IH.
    + simpl app at 1. rewrite IH. simpl. now rewrite <- app_assoc.
Qed.

Lemma completed_ended evs : forall st,
  completed evs st
  = concat (map (fun t => emitted (TTSThread_run t)) (ended_threads evs st)).
Proof.
  induction evs as [|e evs IH]; intros st; [reflexivity|].
  simpl. rewrite map_app, concat_app, <- IH. f_equal.
  destruct e as [ts typed|k|i|]; try reflexivity.
  destruct (synthesizing st !! i) as [t|]; [|reflexivity].
  simpl. now rewrite app_nil_r.
Qed.

Lemma dispatched_started evs : forall st,
  dispatched evs st = map tts_text (started_threads evs st).
Proof.
  induction evs as [|e evs IH]; intros st; [reflexivity|].
  simpl. now rewrite map_app, IH.
Qed.

Lemma requested_app evs1 evs2 : requested (evs1 ++ evs2) = requested evs1 ++ requested evs2.
Proof.
  induction evs1 as [|e evs1 IH]; [reflexivity|].
  destruct e; simpl; rewrite IH; now rewrite ?app_assoc.
Qed.

Lemma new_threads_requested st e :
  map tts_text (new_threads st e) `sublist_of` requested [e].
Proof.
  destruct e as [ts typed|k|i|]; try (simpl; constructor).
  destruct (submit_effect ts typed st) as (_ & _ & _ & Hlen & Hall).
  rewrite accepted_submit in Hlen. simpl requested. rewrite app_nil_r.
  destruct (new_threads st (Submit ts typed)) as [|t [|t' new]].
  - apply sublist_nil_l.
  - inversion Hall as [|? ? Ht _]; subst. simpl. rewrite Ht.
    destruct (truthy (sanitize typed)); [reflexivity | simpl in Hlen; lia].
  - destruct (truthy (sanitize typed)); simpl in Hlen; lia.
Qed.

Lemma dispatched_requested evs : forall st, dispatched evs st `sublist_of` requested evs.
Proof.
  induction evs as [|e evs IH]; intros st; [constructor|].
  change (e :: evs) with ([e] ++ evs) at 2. rewrite requested_app.
  simpl dispatched. apply sublist_app; [apply new_threads_requested | apply IH].
Qed.

Lemma accepted_requested evs : Forall2 entry_of (accepted evs) (requested evs).
Proof.
  induction evs as [|e evs IH]; [constructor|].
  destruct e as [ts typed|k|i|]; simpl; try exact IH.
  destruct (truthy (sanitize typed)); simpl; [|exact IH].
  constructor; [now exists ts | exact IH].
Qed.

(** X12. Requests are conserved. After any schedule from start-up, the
    buffers played followed by those queued are exactly the buffers emitted
    by the threads whose [run] has ended, in the order in which they ended,
    and a thread emits at most one buffer. The ended threads and those still
    synthesizing are together, up to order, the threads started: a thread
    ends once. The texts of the started threads are, in order, among the
    sanitized texts of the accepted submissions, and the log has gained one
    entry for each of these, made of its time stamp and its text. So a
    request is played at most once, and nothing is played that was not
    submitted and logged; in numbers, played, queued and running requests
    are at most the threads started, and these at most the entries logged. *)
Theorem requests_are_conserved evs (w : Config.widgets) (old_log : list pystr) :
  let st0 := startup w old_log in
  let st := run_events evs st0 in
  let a := audio_thread st in
  let started := started_threads evs st0 in
  let ended := ended_threads evs st0 in
  (Playback.played (Playback.device a) ++ Playback.audio_queue a
   = concat (map (fun t => emitted (TTSThread_run t)) ended)
   /\ (forall t, length (emitted (TTSThread_run t)) <= 1)
   /\ ended ++ synthesizing st ≡ₚ started
   /\ map tts_text started `sublist_of` requested evs
   /\ Forall2 entry_of (accepted evs) (requested evs)
   /\ log_file st = old_log ++ map with_newline (accepted evs))
  /\ length (Playback.played (Playback.device a)) + length (Playback.audio_queue a)
       + length (synthesizing st)
     <= length (dispatched evs st0)
  /\ length (dispatched evs st0) <= length (accepted evs)
  /\ length (log_file st) = length old_log + length (accepted evs).
Proof.
  intros st0 st a started ended.
  assert (Hc : completed evs st0
               = Playback.played (Playback.device a) ++ Playback.audio_queue a).
  { apply PlaybackFacts.consistent_played.
    apply (AppFacts.consistent_app_run db nd_scale nd_add sd_play_raises evs [] st0).
    apply PlaybackFacts.consistent_started. }
  destruct (run_log evs st0) as [Hl _]. fold st in Hl. simpl log_file in Hl.
  split; [|split; [|split]].
  - split; [|split; [|split; [|split; [|split]]]].
    + rewrite <- Hc. apply completed_ended.
    + apply emitted_at_most_one.
    + apply (threads_conserved evs st0).
    + unfold started. rewrite <- dispatched_started. apply dispatched_requested.
    + apply accepted_requested.
    + exact Hl.
  - pose proof (run_count evs st0) as Hn. fold st in Hn.
    rewrite Hc, length_app in Hn. simpl in Hn. lia.
  - apply dispatched_le_accepted.
  - rewrite Hl, length_app, length_map. reflexivity.
Qed.

(** *** After the playback worker has been stopped *)

Lemma step_after_stop st e :
  Playback.finished (audio_thread st) = true ->
  Playback.finished (audio_thread (step st e)) = true
  /\ Playback.device (audio_thread (step st e)) = Playback.device (audio_thread st).
Proof.
  intros Hf. destruct e as [ts typed|k|i|]; simpl.
  - rewrite AppFacts.end_slot_audio, AppFacts.handle_input_audio. auto.
  - auto.
  - unfold synth_done. destruct (synthesizing st !! i) as [t|]; [|auto].
    rewrite (AppFacts.fold_play_audio_output sd_play_raises).
    now apply PlaybackFacts.finished_run.
  - apply (PlaybackFacts.finished_step sd_play_raises _ Playback.EvWorker Hf).
Qed.

Lemma run_after_stop evs : forall st,
  Playback.finished (audio_thread st) = true ->
  Playback.device (audio_thread (run_events evs st)) = Playback.device (audio_thread st).
Proof.
  induction evs as [|e evs IH]; intros st Hf; [reflexivity|].
  rewrite run_events_cons.
  destruct (step_after_stop st e Hf) as [Hf' Hd]. now rewrite IH.
Qed.

Lemma step_queue_after_stop st e :
  Playback.finished (audio_thread st) = true ->
  Playback.audio_queue (audio_thread (step st e))
  = Playback.audio_queue (audio_thread st) ++ completed [e] st.
Proof.
  intros Hf. destruct e as [ts typed|k|i|].
  - simpl. rewrite AppFacts.end_slot_audio, AppFacts.handle_input_audio.
    now rewrite app_nil_r.
  - simpl. now rewrite app_nil_r.
  - simpl. rewrite app_nil_r. unfold synth_done.
    destruct (synthesizing st !! i) as [t|]; [|now rewrite app_nil_r].
    rewrite (AppFacts.fold_play_audio_output sd_play_raises).
    rewrite (PlaybackFacts.finished_queue_run sd_play_raises) by exact Hf.
    now rewrite AppFacts.enqueued_adds.
  - change (audio_thread (step st AudioWorker))
      with (Playback.step sd_play_raises (audio_thread st) Playback.EvWorker).
    rewrite (PlaybackFacts.finished_queue_step sd_play_raises _ Playback.EvWorker Hf).
    reflexivity.
Qed.

Lemma run_queue_after_stop evs : forall st,
  Playback.finished (audio_thread st) = true ->
  Playback.audio_queue (audio_thread (run_events evs st))
  = Playback.audio_queue (audio_thread st) ++ completed evs st.
Proof.
  induction evs as [|e evs IH]; intros st Hf; [simpl; now rewrite app_nil_r|].
  rewrite run_events_cons.
  destruct (step_after_stop st e Hf) as [Hf' _].
  rewrite (IH _ Hf'), (step_queue_after_stop st e Hf).
  change (e :: evs) with ([e] ++ evs).
  rewrite (AppFacts.completed_app db nd_scale nd_add sd_play_raises [e] evs st).
  now rewrite <- app_assoc.
Qed.

(** X13. [closeEvent] first stops the playback worker. That returns in every
    state of the program, within three worker steps, with the worker ended,
    and changes nothing but the playback thread. From then on no schedule
    makes the device play: the buffers of the syntheses that end later are
    put into the queue, in the order in which they end, and stay there. *)
Theorem nothing_plays_after_shutdown st :
  exists a',
    Playback.stop sd_play_raises 3 (audio_thread st) = Some a'
    /\ stop_audio sd_play_raises 3 st = Some (set_audio_thread a' st)
    /\ Playback.finished a' = true
    /\ (let st' := set_audio_thread a' st in
        audio_thread st' = a'
        /\ kokoro st' = kokoro st /\ ui st' = ui st /\ text_input st' = text_input st
        /\ log_file st' = log_file st /\ log_display st' = log_display st
        /\ tts_thread st' = tts_thread st /\ synthesizing st' = synthesizing st
        /\ stdout st' = stdout st
        /\ ui_errors st' = ui_errors st /\ worker_errors st' = worker_errors st)
    /\ forall evs,
         let st'' := run_events evs (set_audio_thread a' st) in
         Playback.device (audio_thread st'') = Playback.device a'
         /\ Playback.audio_queue (audio_thread st'')
            = Playback.audio_queue a' ++ completed evs (set_audio_thread a' st).
Proof.
  destruct (PlaybackFacts.stop_returns sd_play_raises (audio_thread st)) as (a' & Hstop & Hf).
  exists a'. unfold stop_audio. rewrite Hstop.
  split; [reflexivity|]. split; [reflexivity|]. split; [exact Hf|].
  split; [cbv zeta; simpl; tauto|].
  intros evs. cbv zeta. split.
  - now rewrite run_after_stop.
  - now rewrite run_queue_after_stop.
Qed.

(** *** Blank submissions *)

(** X14. A submission that is all whitespace, or all characters outside the
    retained class, changes nothing: no log entry, no synthesis, no error,
    and the text stays in the input line (it is cleared only when a text is
    accepted). *)
Theorem blank_submission_is_ignored (ts typed : pystr) st
  (Hblank : Forall (fun c => isspace c = true) typed
            \/ Forall (fun c => Sanitizer.removed db c = true) typed) :
  step st (Submit ts typed) = set_text_input typed st.
Proof.
  simpl. unfold App.handle_input. simpl text_input.
  now rewrite (SanitizerMore.sanitize_blank db typed Hblank).
Qed.

(** *** An exception that is not an [Exception] *)

(** X15. [run] catches [Exception] only: when [create] raises something else
    (a [BaseException] such as [SystemExit]), nothing is printed and nothing
    is emitted, the exception leaves the thread, and the queue stays as it
    was. *)
Theorem other_exception_leaves_run st (i : nat) t (e : exception)
  (Hrunning : synthesizing st !! i = Some t)
  (Hraise : create (tts_kokoro t) (tts_text t)
              (Blend.blended_voice nd_scale nd_add (tts_voice1 t) (tts_voice2 t)
                 (tts_blend_value t))
              1%float (py "en-us") = Raise e)
  (Hbase : is_Exception e = false) :
  let st' := step st (SynthDone i) in
  emitted (TTSThread_run t) = []
  /\ printed (TTSThread_run t) = []
  /\ escaped (TTSThread_run t) = Some e
  /\ worker_errors st' = worker_errors st ++ [e]
  /\ stdout st' = stdout st
  /\ audio_thread st' = audio_thread st.
Proof.
  intros st'.
  assert (Hrun : TTSThread_run t =
            mkRun [(tts_text t,
                    Blend.blended_voice nd_scale nd_add (tts_voice1 t) (tts_voice2 t)
                      (tts_blend_value t), 1%float, py "en-us")]
                  [] [] (Some e)).
  { unfold App.TTSThread_run, App.call_create. rewrite Hraise, Hbase. reflexivity. }
  unfold st'. simpl. unfold synth_done. rewrite Hrunning, Hrun. simpl.
  repeat split. apply app_nil_r.
Qed.

End Pipeline.

(** The overlapping session of the demo, on a log that held one entry. *)
Lemma log_view_after_restart_witness :
  Startup.load_log
    (Content (concat (log_file
       (App.run_events Demo.ascii_only Demo.nd_scale Demo.nd_add Demo.device_ok
          Demo.overlapping
          (startup Demo.widgets (map with_newline [py "[2024-12-31 23:59:59] old"]))))))
  = Ok (concat (map with_newline (Startup.last_items 50
       ([py "[2024-12-31 23:59:59] old"]
        ++ Session.accepted Demo.ascii_only Demo.overlapping)))).
Proof.
  apply (log_view_after_restart Demo.ascii_only Demo.nd_scale Demo.nd_add Demo.device_ok
           Demo.overlapping Demo.widgets [py "[2024-12-31 23:59:59] old"]).
  - repeat constructor; vm_compute; discriminate.
  - unfold Demo.overlapping. simpl.
    repeat first [ exact I | constructor | (vm_compute; discriminate) ].
Defined.

(** Three spaces are submitted. *)
Lemma blank_submission_is_ignored_witness :
  App.step Demo.ascii_only Demo.nd_scale Demo.nd_add Demo.device_ok
    Demo.started_app (Submit Demo.clock (py "   "))
  = set_text_input (py "   ") Demo.started_app.
Proof.
  apply (blank_submission_is_ignored Demo.ascii_only Demo.nd_scale Demo.nd_add
           Demo.device_ok Demo.clock (py "   ") Demo.started_app).
  left. repeat constructor.
Defined.

(** The synthesis of [hi] is interrupted. *)
Lemma other_exception_leaves_run_witness :
  worker_errors
    (App.step Demo.ascii_only Demo.nd_scale Demo.nd_add Demo.device_ok
       (App.run_events Demo.ascii_only Demo.nd_scale Demo.nd_add Demo.device_ok
          Demo2.interrupted_request Demo.started_app)
       (SynthDone 0))
  = [mkExc NotAnException (py "interrupted")].
Proof.
  refine (proj1 (proj2 (proj2 (proj2
    (other_exception_leaves_run Demo.ascii_only Demo.nd_scale Demo.nd_add Demo.device_ok
       (App.run_events Demo.ascii_only Demo.nd_scale Demo.nd_add Demo.device_ok
          Demo2.interrupted_request Demo.started_app)
       0
       (mkTTSThread Demo2.interrupted (py "hi") [1%float; 0%float] [0%float; 1%float] 50)
       (mkExc NotAnException (py "interrupted"))
       _ _ _))))).
  - reflexivity.
  - reflexivity.
  - reflexivity.
Defined.

End AppMore.

(* ===================================================================== *)
(** ** Properties of the window: preferences and labels *)
(* ===================================================================== *)

Module WindowFacts.
Import PyStr PyExc Config Window.
Local Open Scope nat_scope.

(** *** The widgets [init_ui] builds *)

Lemma addItems_new voices :
  addItems voices new_combo
  = mkCombo voices (match voices with [] => None | _ :: _ => Some 0 end).
Proof. unfold addItems, new_combo. simpl. now destruct voices. Qed.

Lemma currentText_at l i x : l !! i = Some x -> currentText (mkCombo l (Some i)) = x.
Proof. intros H. unfold currentText. simpl. now rewrite H. Qed.

Lemma findText_from_absent text l : forall i,
  text ∉ l -> findText_from i text l = None.
Proof.
  induction l as [|x l IH]; intros i H; simpl; [reflexivity|].
  destruct (pystr_eqb x text) eqn:E.
  - apply ConfigFacts.pystr_eqb_true in E. subst. exfalso. apply H. left.
  - apply IH. intros Hin. apply H. now right.
Qed.

(** The text a combo box shows after [addItems] and [setCurrentText]. *)
Lemma selected_text voices t :
  let c := setCurrentText t (addItems voices new_combo) in
  items c = voices
  /\ (t ∈ voices -> currentText c = t)
  /\ (t ∉ voices -> currentText c = default_voice1 voices).
Proof.
  cbv zeta. rewrite addItems_new. unfold setCurrentText, findText. simpl items.
  destruct (findText_from 0 t voices) as [i|] eqn:E.
  - apply ConfigFacts.findText_from_found in E as (k & -> & Hk). simpl.
    repeat split.
    + intros _. now apply currentText_at.
    + intros Hnot. exfalso. apply Hnot. eapply list_elem_of_lookup_2; eauto.
  - repeat split.
    + intros Hin. apply list_elem_of_lookup_1 in Hin as [k Hk].
      destruct (ConfigFacts.findText_from_present t voices 0 k Hk) as [j Hj]. congruence.
    + intros _. destruct voices as [|v vs]; reflexivity.
Qed.

Lemma selected_shows_catalog voices t :
  shows_catalog_voice voices (setCurrentText t (addItems voices new_combo)).
Proof.
  destruct (selected_text voices t) as (Hitems & Hin & Hout).
  split; [exact Hitems|].
  destruct (decide (t ∈ voices)) as [H|H].
  - rewrite (Hin H). destruct voices as [|v vs]; [inversion H|].
    now apply list_elem_of_lookup_1.
  - rewrite (Hout H). destruct voices as [|v vs]; [reflexivity|].
    exists 0. reflexivity.
Qed.

Lemma slider_set (z : Z) :
  let sl := setValue z (setMaximum 100 (setMinimum 0 new_slider)) in
  minimum sl = 0%Z /\ maximum sl = 100%Z /\ value sl = bound 0 z 100.
Proof. repeat split. Qed.

(** What [init_ui] returns when it returns. *)
Lemma init_ui_inv voices config w :
  init_ui voices config = Ok w ->
  exists d t1 t2 z,
    config = JDict d
    /\ as_str (match d !! py "voice1" with Some v => v | None => VStr (default_voice1 voices) end)
       = Ok t1
    /\ as_str (match d !! py "voice2" with Some v => v | None => VStr (default_voice2 voices) end)
       = Ok t2
    /\ as_int (match d !! py "blend" with Some v => v | None => VInt 50 end) = Ok z
    /\ w = mkWidgets (setCurrentText t1 (addItems voices new_combo))
                     (setCurrentText t2 (addItems voices new_combo))
                     (setValue z (setMaximum 100 (setMinimum 0 new_slider))).
Proof.
  destruct config as [d|]; [|discriminate].
  unfold init_ui, config_get, bind.
  destruct (as_str (match d !! py "voice1" with Some v => v | None => _ end))
    as [t1|] eqn:E1; [|discriminate].
  destruct (as_str (match d !! py "voice2" with Some v => v | None => _ end))
    as [t2|] eqn:E2; [|discriminate].
  destruct (as_int (match d !! py "blend" with Some v => v | None => _ end))
    as [z|] eqn:E3; [|discriminate].
  intros H. inversion H; subst. exists d, t1, t2, z. auto.
Qed.


Lemma as_int_VInt z z' :
  as_int (VInt z) = Ok z' <-> z' = z /\ (int_min <= z <= int_max)%Z.
Proof.
  unfold as_int.
  destruct ((int_min <=? z) && (z <=? int_max))%Z eqn:E.
  - apply andb_true_iff in E as [E1 E2]. apply Z.leb_le in E1, E2.
    split; [intros H; inversion H; subst; split; [reflexivity | lia]
           | intros [-> _]; reflexivity].
  - split; [discriminate|]. intros [_ [H1 H2]].
    apply Z.leb_le in H1, H2. rewrite H1, H2 in E. discriminate.
Qed.

Lemma as_int_overflow z :
  ~ (int_min <= z <= int_max)%Z ->
  exists e, as_int (VInt z) = Raise e /\ exc_type e = OverflowError.
Proof.
  intros H. unfold as_int.
  destruct ((int_min <=? z) && (z <=? int_max))%Z eqn:E.
  - apply andb_true_iff in E as [E1 E2]. apply Z.leb_le in E1, E2. lia.
  - eexists. split; reflexivity.
Qed.

Lemma bound_range (z : Z) : (0 <= bound 0 z 100 <= 100)%Z.
Proof. unfold bound. lia. Qed.

Lemma init_ui_well_formed voices config w :
  init_ui voices config = Ok w -> well_formed voices w.
Proof.
  intros H. apply init_ui_inv in H as (d & t1 & t2 & z & _ & _ & _ & _ & ->).
  unfold well_formed. simpl.
  split; [apply selected_shows_catalog|]. split; [apply selected_shows_catalog|].
  repeat split; apply bound_range.
Qed.

(** X16. Whenever start-up gets to build the widgets, the two boxes list the
    catalog and show one of its voices (nothing when the catalog is empty),
    and the slider ranges over 0..100 with its value in that range. A blend
    found in the config file is then an integer that fits a C int, the only
    values [setValue] takes, and the slider shows it clamped to 0..100;
    without a configured blend the slider shows 50. *)
Theorem widgets_are_well_formed (voices : list pystr) (f : config_file) (w : Config.widgets)
  (Hstart : startup_widgets voices f = Ok w) :
  well_formed voices w
  /\ (forall d v, f = Holds (JDict d) -> d !! py "blend" = Some v ->
        exists z, v = VInt z /\ (int_min <= z <= int_max)%Z
                  /\ value (blend_slider w) = Z.max 0 (Z.min 100 z))
  /\ (forall d, f = Holds (JDict d) -> d !! py "blend" = None ->
        value (blend_slider w) = 50%Z)
  /\ (f = Missing \/ f = Malformed -> value (blend_slider w) = 50%Z).
Proof.
  unfold startup_widgets in Hstart.
  destruct (load_config f) as [config|e] eqn:El; [|discriminate]. simpl in Hstart.
  split; [eapply init_ui_well_formed; eauto|].
  apply init_ui_inv in Hstart as (d' & t1 & t2 & z' & Hd & _ & _ & Hb & ->).
  subst config. split; [|split].
  - intros d v -> Hv. simpl in El. inversion El; subst d'. rewrite Hv in Hb.
    destruct v as [s|z| |]; try discriminate.
    apply as_int_VInt in Hb as [-> Hr]. exists z. auto.
  - intros d -> Hn. simpl in El. inversion El; subst d'. rewrite Hn in Hb.
    apply as_int_VInt in Hb as [-> _]. reflexivity.
  - intros [-> | ->]; simpl in El; inversion El; subst d';
      rewrite lookup_empty in Hb; apply as_int_VInt in Hb as [-> _]; reflexivity.
Qed.


(** A config with blend 250 and a [null] first voice: the slider stops at
    100 and the first box keeps the first voice. *)
Lemma widgets_are_well_formed_witness :
  startup_widgets [py "af_sarah"; py "am_adam"] (Holds (JDict Demo2.steep_config))
  = Ok (mkWidgets (mkCombo [py "af_sarah"; py "am_adam"] (Some 0))
                  (mkCombo [py "af_sarah"; py "am_adam"] (Some 1))
                  (mkSlider 0 100 100))
  /\ well_formed [py "af_sarah"; py "am_adam"]
       (mkWidgets (mkCombo [py "af_sarah"; py "am_adam"] (Some 0))
                  (mkCombo [py "af_sarah"; py "am_adam"] (Some 1))
                  (mkSlider 0 100 100))
  /\ exists z, VInt 250 = VInt z /\ (int_min <= z <= int_max)%Z
       /\ value (blend_slider
            (mkWidgets (mkCombo [py "af_sarah"; py "am_adam"] (Some 0))
                       (mkCombo [py "af_sarah"; py "am_adam"] (Some 1))
                       (mkSlider 0 100 100))) = Z.max 0 (Z.min 100 z).
Proof.
  assert (Hstart :
    startup_widgets [py "af_sarah"; py "am_adam"] (Holds (JDict Demo2.steep_config))
    = Ok (mkWidgets (mkCombo [py "af_sarah"; py "am_adam"] (Some 0))
                    (mkCombo [py "af_sarah"; py "am_adam"] (Some 1))
                    (mkSlider 0 100 100))) by (vm_compute; reflexivity).
  split; [exact Hstart|].
  destruct (widgets_are_well_formed _ _ _ Hstart) as (Hwf & Hb & _).
  split; [exact Hwf|].
  apply (Hb Demo2.steep_config (VInt 250)); [reflexivity | vm_compute; reflexivity].
Defined.


(** *** Which config files the program starts with *)

Lemma as_str_ok (o : option pyvalue) (dflt : pystr) :
  (exists t, as_str (match o with Some v => v | None => VStr dflt end) = Ok t)
  <-> str_or_absent o.
Proof.
  destruct o as [[s|z| |]|]; simpl; split; intros H;
    try exact I; try contradiction; try (destruct H; discriminate); eauto.
Qed.

Lemma as_int_ok (o : option pyvalue) :
  (exists z, as_int (match o with Some v => v | None => VInt 50 end) = Ok z)
  <-> int_or_absent o.
Proof.
  destruct o as [[s|z| |]|]; cbn [int_or_absent].
  - split; [intros [? H]; discriminate | contradiction].
  - split.
    + intros [z' H]. now apply as_int_VInt in H.
    + intros H. exists z. now apply as_int_VInt.
  - split; [intros [? H]; discriminate | contradiction].
  - split; [intros [? H]; discriminate | contradiction].
  - split; [auto|]. intros _. exists 50%Z. reflexivity.
Qed.

Lemma init_ui_ok (voices : list pystr) (d : gmap pystr pyvalue) :
  (exists w, init_ui voices (JDict d) = Ok w)
  <-> str_or_absent (d !! py "voice1")
      /\ str_or_absent (d !! py "voice2")
      /\ int_or_absent (d !! py "blend").
Proof.
  rewrite <- (as_str_ok (d !! py "voice1") (default_voice1 voices)).
  rewrite <- (as_str_ok (d !! py "voice2") (default_voice2 voices)).
  rewrite <- as_int_ok.
  split.
  - intros [w H]. apply init_ui_inv in H as (d' & t1 & t2 & z & Hd & H1 & H2 & H3 & _).
    inversion Hd; subst d'. split; [eauto | split; eauto].
  - intros ([t1 H1] & [t2 H2] & [z H3]).
    unfold init_ui, config_get, bind. rewrite H1, H2, H3. eauto.
Qed.

(** X18. The program gets through start-up exactly when the config file is
    missing, is not JSON, or is a JSON object in which [voice1] and [voice2],
    if present, are strings or [null], and [blend], if present, is an integer
    between -2147483648 and 2147483647. Any other file makes [__init__]
    raise, since [load_config] catches nothing else: a file that cannot be
    read, a JSON value that is not an object, a voice or blend of another
    type, an integer blend that does not fit a C int. *)
Theorem startup_succeeds_iff (voices : list pystr) (f : config_file) :
  (exists w, startup_widgets voices f = Ok w) <-> usable f.
Proof.
  unfold startup_widgets.
  destruct f as [| |e|[d|]]; simpl.
  - split; [auto|]. intros _. unfold init_ui, config_get.
    rewrite !lookup_empty. simpl. eauto.
  - split; [auto|]. intros _. unfold init_ui, config_get.
    rewrite !lookup_empty. simpl. eauto.
  - split; [intros [w H]; discriminate | contradiction].
  - apply init_ui_ok.
  - split; [intros [w H]; discriminate | contradiction].
Qed.

(** A blend of 3000000000 stops start-up with an [OverflowError]. *)
Example huge_blend_stops_startup :
  exists e,
    startup_widgets [py "af_sarah"; py "am_adam"] (Holds (JDict Demo2.huge_config)) = Raise e
    /\ exc_type e = OverflowError.
Proof. eexists. split; [vm_compute; reflexivity | reflexivity]. Qed.

(** *** Preferences across a restart *)

Lemma voice_keys_differ :
  py "voice1" <> py "voice2" /\ py "voice1" <> py "blend" /\ py "voice2" <> py "blend".
Proof. repeat split; vm_compute; discriminate. Qed.

Lemma config_data_lookup (w : Config.widgets) :
  config_data w !! py "voice1" = Some (VStr (currentText (voice1_combo w)))
  /\ config_data w !! py "voice2" = Some (VStr (currentText (voice2_combo w)))
  /\ config_data w !! py "blend" = Some (VInt (value (blend_slider w))).
Proof.
  destruct voice_keys_differ as (H12 & H1b & H2b).
  unfold config_data. split; [|split].
  - apply lookup_insert_eq.
  - rewrite lookup_insert_ne by exact H12. apply lookup_insert_eq.
  - rewrite lookup_insert_ne by exact H1b.
    rewrite lookup_insert_ne by exact H2b. apply lookup_insert_eq.
Qed.

Lemma shown_text_reselected voices c :
  shows_catalog_voice voices c ->
  currentText (setCurrentText (currentText c) (addItems voices new_combo)) = currentText c.
Proof.
  intros [_ H]. destruct (selected_text voices (currentText c)) as (_ & Hin & Hout).
  destruct voices as [|v vs].
  - rewrite Hout; [now rewrite H | rewrite H; apply not_elem_of_nil].
  - destruct H as [k Hk]. apply Hin. eapply list_elem_of_lookup_2; eauto.
Qed.

Lemma saved_config_round_trip voices (w : Config.widgets) :
  well_formed voices w ->
  exists w', startup_widgets voices (Holds (JDict (config_data w))) = Ok w'
             /\ current_preferences w' = current_preferences w.
Proof.
  intros (H1 & H2 & _ & _ & Hv).
  destruct (config_data_lookup w) as (L1 & L2 & L3).
  assert (Hz : as_int (VInt (value (blend_slider w))) = Ok (value (blend_slider w))).
  { apply as_int_VInt. unfold int_min, int_max. split; [reflexivity | lia]. }
  unfold startup_widgets. simpl. unfold init_ui, config_get.
  rewrite L1, L2, L3. cbn [bind as_str]. rewrite Hz. cbn [bind].
  eexists. split; [reflexivity|].
  unfold current_preferences. simpl.
  rewrite (shown_text_reselected voices _ H1), (shown_text_reselected voices _ H2).
  f_equal. unfold bound. lia.
Qed.

Lemma config_data_same (w w' : Config.widgets) :
  current_preferences w = current_preferences w' -> config_data w = config_data w'.
Proof.
  unfold current_preferences, config_data. intros H. inversion H as [[Ha Hb Hc]].
  now rewrite Ha, Hb, Hc.
Qed.

Lemma pick_shows voices i c :
  shows_catalog_voice voices c -> shows_catalog_voice voices (pick i c).
Proof.
  intros [Hitems H]. unfold pick.
  destruct (Nat.ltb_spec i (length (items c))) as [Hlt|]; [|now split].
  split; [exact Hitems|]. simpl.
  rewrite Hitems in Hlt. destruct (lookup_lt_is_Some_2 voices i Hlt) as [x Hx].
  destruct voices as [|v vs]; [simpl in Hlt; lia|].
  exists i. rewrite Hx. f_equal. symmetry. apply currentText_at. now rewrite Hitems.
Qed.

Lemma synced_change voices f p win (w' : Config.widgets) (same : bool) :
  synced voices f p win ->
  well_formed voices w' ->
  (same = true -> current_preferences w' = current_preferences (widgets win)) ->
  synced voices f p (if same then set_widgets w' win else save_config (set_widgets w' win))
  /\ synced voices f p
       (if same then set_widgets w' win else update_blend_label (set_widgets w' win)).
Proof.
  intros [_ Hfile] Hwf Hsame. destruct same.
  - specialize (Hsame eq_refl).
    assert (synced voices f p (set_widgets w' win)); [|auto].
    split; [exact Hwf|]. simpl. destruct Hfile as [[Hf Hp]|Hf].
    + left. split; [exact Hf | congruence].
    + right. rewrite Hf. do 2 f_equal. now apply config_data_same.
  - split; (split; [exact Hwf | right; reflexivity]).
Qed.

Lemma on_event_synced voices f p win e :
  synced voices f p win -> synced voices f p (on_event win e).
Proof.
  intros Hs. pose proof Hs as [(H1 & H2 & Hmin & Hmax & Hv) _].
  destruct e as [i|i|v|]; unfold on_event.
  - apply (synced_change voices f p win _ _ Hs).
    + unfold well_formed. simpl.
      split; [apply pick_shows, H1|]. split; [exact H2|]. auto.
    + intros E. apply ConfigFacts.pystr_eqb_true in E.
      unfold current_preferences. simpl. now rewrite E.
  - apply (synced_change voices f p win _ _ Hs).
    + unfold well_formed. simpl.
      split; [exact H1|]. split; [apply pick_shows, H2|]. auto.
    + intros E. apply ConfigFacts.pystr_eqb_true in E.
      unfold current_preferences. simpl. now rewrite E.
  - apply (synced_change voices f p win _ _ Hs).
    + unfold well_formed. simpl.
      split; [exact H1|]. split; [exact H2|].
      split; [exact Hmin|]. split; [exact Hmax|].
      rewrite Hmin, Hmax. apply bound_range.
    + intros E. apply Z.eqb_eq in E.
      unfold current_preferences. simpl. simpl in E. now rewrite E.
  - destruct Hs as [Hwf Hfile]. split; [exact Hwf | exact Hfile].
Qed.

Lemma run_ui_synced voices f p evs : forall win,
  synced voices f p win -> synced voices f p (run_ui evs win).
Proof.
  induction evs as [|e evs IH]; intros win H; [exact H|].
  simpl. apply IH. now apply on_event_synced.
Qed.

Lemma open_window_inv voices f win :
  open_window voices f = Ok win ->
  startup_widgets voices f = Ok (Window.widgets win)
  /\ config_json win = f /\ pinned win = false /\ labels_agree win.
Proof.
  unfold open_window. destruct (startup_widgets voices f) as [w|e]; [|discriminate].
  simpl. intros H. inversion H; subst. simpl. repeat split.
Qed.

(** X19. Preferences survive a restart. Whatever the user does with the two
    boxes, the slider and the pin button, starting the program again on the
    config file the session leaves gives the voices and the blend the session
    ended with: every change is saved when it happens, and what is saved is
    read back to the same selection. *)
Theorem preferences_survive_restart (voices : list pystr) (f : config_file)
  (win0 : window) (evs : list ui_event)
  (Hopen : open_window voices f = Ok win0) :
  let win := run_ui evs win0 in
  exists win',
    open_window voices (config_json win) = Ok win'
    /\ current_preferences (Window.widgets win') = current_preferences (Window.widgets win).
Proof.
  intros win.
  destruct (open_window_inv voices f win0 Hopen) as (Hstart & Hf0 & _ & _).
  assert (Hwf0 : well_formed voices (Window.widgets win0)).
  { unfold startup_widgets in Hstart.
    destruct (load_config f) as [config|e]; [|discriminate].
    eapply init_ui_well_formed; eauto. }
  assert (Hs : synced voices f (current_preferences (Window.widgets win0)) win).
  { apply run_ui_synced. split; [exact Hwf0 | left; auto]. }
  destruct Hs as [Hwf [[Hf Hp]|Hf]].
  - exists win0. split; [now rewrite Hf | now rewrite Hp].
  - destruct (saved_config_round_trip voices _ Hwf) as (w' & Hw' & Hprefs).
    eexists. split.
    + rewrite Hf. unfold open_window. rewrite Hw'. simpl. reflexivity.
    + exact Hprefs.
Qed.

(** *** The labels *)

Lemma on_event_labels win e : labels_agree win -> labels_agree (on_event win e).
Proof.
  intros (H1 & H2 & H3). destruct e as [i|i|v|]; unfold on_event.
  - destruct (pystr_eqb _ _); repeat split; auto.
  - destruct (pystr_eqb _ _); repeat split; auto.
  - destruct (Z.eqb_spec (value (setValue v (blend_slider (Window.widgets win))))
                (value (blend_slider (Window.widgets win)))) as [E|E].
    + repeat split; auto.
      change (blend_value_label win
              = blend_text (mkWidgets (voice1_combo (Window.widgets win))
                              (voice2_combo (Window.widgets win))
                              (setValue v (blend_slider (Window.widgets win))))).
      rewrite H3. unfold blend_text.
      change (blend_slider (mkWidgets _ _ ?sl)) with sl.
      now rewrite E.
    + repeat split; auto.
  - unfold toggle_pin. repeat split; auto.
Qed.

Lemma on_event_pinned win e :
  pinned (on_event win e) = (if Nat.odd (clicks [e]) then negb (pinned win) else pinned win).
Proof.
  destruct e as [i|i|v|]; unfold on_event; simpl; try reflexivity.
  - now destruct (pystr_eqb _ _).
  - now destruct (pystr_eqb _ _).
  - now destruct (Z.eqb _ _).
Qed.

Lemma run_ui_pinned evs : forall win,
  pinned (run_ui evs win) = (if Nat.odd (clicks evs) then negb (pinned win) else pinned win).
Proof.
  induction evs as [|e evs IH]; intros win; [reflexivity|].
  simpl run_ui. rewrite IH, on_event_pinned.
  destruct e; simpl clicks; try (now destruct (Nat.odd (clicks evs))).
  rewrite (Nat.odd_succ (clicks evs)), <- Nat.negb_odd.
  destruct (Nat.odd (clicks evs)); simpl; now rewrite ?negb_involutive.
Qed.

(** X20. The labels follow the state: after any session the pin button reads
    [Unpin Window] exactly when the window is pinned, the stay-on-top flag
    equals [pinned], the window is pinned exactly after an odd number of
    clicks on the button, and the blend label shows the value of the
    slider. *)
Theorem labels_follow_state (voices : list pystr) (f : config_file)
  (win0 : window) (evs : list ui_event)
  (Hopen : open_window voices f = Ok win0) :
  let win := run_ui evs win0 in
  stays_on_top win = pinned win
  /\ pin_button win = (if pinned win then py "Unpin Window" else py "Pin Window")
  /\ pinned win = Nat.odd (clicks evs)
  /\ blend_value_label win
     = py "Blend: " ++ str_int (value (blend_slider (Window.widgets win))) ++ py "%".
Proof.
  intros win.
  destruct (open_window_inv voices f win0 Hopen) as (_ & _ & Hpin & Hlab).
  assert (Hrun : forall evs w, labels_agree w -> labels_agree (run_ui evs w)).
  { clear. intros evs. induction evs as [|e evs IH]; intros w Hw; [exact Hw|].
    simpl. apply IH. now apply on_event_labels. }
  destruct (Hrun evs win0 Hlab) as (H1 & H2 & H3). repeat split; auto.
  unfold win. rewrite run_ui_pinned, Hpin. now destruct (Nat.odd (clicks evs)).
Qed.

(** The demo session on the window of a first start. *)
Lemma preferences_survive_restart_witness :
  exists win',
    open_window [py "af_sarah"; py "am_adam"]
      (config_json (run_ui Demo2.session Demo2.window0)) = Ok win'
    /\ current_preferences (Window.widgets win')
       = current_preferences (Window.widgets (run_ui Demo2.session Demo2.window0)).
Proof.
  apply (preferences_survive_restart [py "af_sarah"; py "am_adam"] Missing
           Demo2.window0 Demo2.session).
  reflexivity.
Defined.

Lemma labels_follow_state_witness :
  stays_on_top (run_ui Demo2.session Demo2.window0)
    = pinned (run_ui Demo2.session Demo2.window0)
  /\ pin_button (run_ui Demo2.session Demo2.window0)
     = (if pinned (run_ui Demo2.session Demo2.window0)
        then py "Unpin Window" else py "Pin Window")
  /\ pinned (run_ui Demo2.session Demo2.window0) = Nat.odd (clicks Demo2.session)
  /\ blend_value_label (run_ui Demo2.session Demo2.window0)
     = py "Blend: "
       ++ str_int (value (blend_slider (Window.widgets (run_ui Demo2.session Demo2.window0))))
       ++ py "%".
Proof.
  apply (labels_follow_state [py "af_sarah"; py "am_adam"] Missing
           Demo2.window0 Demo2.session).
  reflexivity.
Defined.

End WindowFacts.
